(** * Aurora: the Entity class (src/core/Entity.js) and its array helpers

    A shallow embedding of the Entity/Component ownership model.  Objects
    live in a store and are named by their location, so that two names for
    one object (an entity copied into itself, a component held by two
    entities) behave as they do in JavaScript.  Methods are computations in
    a state-and-exception monad over that store. *)

From Stdlib Require Import ZArith.
From stdpp Require Import base list strings gmap pretty.

(** ** JavaScript values *)

(** Primitive values. *)
Inductive prim :=
  | Undefined
  | Null
  | Bool (b : bool)
  | Num (z : Z)
  | NaN
  | Str (s : string).

#[global] Instance prim_eq_dec : EqDecision prim.
Proof. solve_decision. Defined.

(** ToBoolean: what [if ( x )], [!x] and [x || y] look at. *)
Definition truthy (p : prim) : bool :=
  match p with
  | Undefined | Null | NaN => false
  | Bool b => b
  | Num z => negb (Z.eqb z 0)
  | Str s => negb (String.eqb s "")
  end.

(** [a || b] on primitives. *)
Definition or_else (a b : prim) : prim := if truthy a then a else b.

(** [a === b] on primitives. *)
Definition strict_eq (a b : prim) : bool :=
  match a with
  | NaN => false
  | _ => bool_decide (a = b)
  end.

(** A plain record (a component's data payload, a task): field names to
    values.  Entity never looks inside one. *)
Abbreviation object := (gmap string prim).

(** Objects with identity are named by their index in the store. *)
Abbreviation loc := nat.

(** What a method can hand back to its caller. *)
Inductive value :=
  | Prim (p : prim)
  | Object (o : object)
  | Entity_ref (e : loc)
  | Component_ref (c : loc)
  | Component_array (cs : list loc)
  | String_array (ss : list string)
  | Task_array (ts : list object).

(** ** Objects *)

Module Component.
(** Modelled from the spec: Component.js is not among the sources.  A
    Component is "a typed payload": a [type] string that never changes and
    a [data] mapping of field names to values.  Entity reads the type
    through the property [_type] (see [hasComponent]). *)
Record obj := { _type : string; _data : object }.

(** The names of these two properties, ["_type"] and ["_data"].  They are
    the names a Component can be read under here: what [item[ prop ]] is
    for another name (a method, an inherited member, a property that only
    Component.js knows of) is not fixed by the sources. *)
Inductive key := key_type | key_data.

Definition key_name (prop : key) : string :=
  match prop with
  | key_type => "_type"
  | key_data => "_data"
  end.
End Component.

Module Entity.
(** The properties the constructor assigns.  [class] stands for
    [this.constructor].  A property not yet assigned is [Undefined]; for
    the two arrays the empty list stands for it, as the constructor
    assigns both before any method reads them. *)
Record obj := {
  class : string;
  _uuid : prim;
  _type : prim;
  _name : prim;
  _components : list loc;
  (** the contents of the array; which array object holds them (the
      constructor and [setTasks] keep the caller's) is not tracked *)
  _tasks : list object;
  tasksDirty : prim;
  _dirty : prim
}.

Definition blank (cls : string) : obj :=
  {| class := cls; _uuid := Undefined; _type := Undefined; _name := Undefined;
     _components := []; _tasks := []; tasksDirty := Undefined; _dirty := Undefined |}.

Definition set_uuid (v : prim) (o : obj) : obj :=
  {| class := class o; _uuid := v; _type := _type o; _name := _name o;
     _components := _components o; _tasks := _tasks o;
     tasksDirty := tasksDirty o; _dirty := _dirty o |}.
Definition set_type (v : prim) (o : obj) : obj :=
  {| class := class o; _uuid := _uuid o; _type := v; _name := _name o;
     _components := _components o; _tasks := _tasks o;
     tasksDirty := tasksDirty o; _dirty := _dirty o |}.
Definition set_name (v : prim) (o : obj) : obj :=
  {| class := class o; _uuid := _uuid o; _type := _type o; _name := v;
     _components := _components o; _tasks := _tasks o;
     tasksDirty := tasksDirty o; _dirty := _dirty o |}.
Definition set_components (v : list loc) (o : obj) : obj :=
  {| class := class o; _uuid := _uuid o; _type := _type o; _name := _name o;
     _components := v; _tasks := _tasks o;
     tasksDirty := tasksDirty o; _dirty := _dirty o |}.
Definition set_tasks (v : list object) (o : obj) : obj :=
  {| class := class o; _uuid := _uuid o; _type := _type o; _name := _name o;
     _components := _components o; _tasks := v;
     tasksDirty := tasksDirty o; _dirty := _dirty o |}.
Definition set_tasksDirty (v : prim) (o : obj) : obj :=
  {| class := class o; _uuid := _uuid o; _type := _type o; _name := _name o;
     _components := _components o; _tasks := _tasks o;
     tasksDirty := v; _dirty := _dirty o |}.
Definition set_dirty (v : prim) (o : obj) : obj :=
  {| class := class o; _uuid := _uuid o; _type := _type o; _name := _name o;
     _components := _components o; _tasks := _tasks o;
     tasksDirty := tasksDirty o; _dirty := v |}.
End Entity.

Module Config.
(** Modelled from the spec: one entry of [config.components], "consumed by
    the Component constructor": the type and the data of the Component to
    build. *)
Record component := { ctype : string; cdata : object }.

(** The record [new Entity( config )] reads.  [uuid], [type] and [name]
    are [Undefined] when absent; an absent array is [None]. *)
Record t := {
  uuid : prim;
  type : prim;
  name : prim;
  components : option (list component);
  tasks : option (list object)
}.
End Config.

(** ** The world *)

(** A line on the console: the pieces a [console.warn] joins with [+], or
    what [JSON.stringify( this )] walks for [console.info]. *)
Inductive message :=
  | warn (pieces : list prim)
  | info (this : Entity.obj) (components : list Component.obj).

Record World := {
  entity_store : list Entity.obj;
  component_store : list Component.obj;
  (** uuid/v4: the identifiers the generator yields, and how many were drawn *)
  uuid_v4 : nat → string;
  drawn : nat;
  console : list message
}.

Definition with_entities (es : list Entity.obj) (w : World) : World :=
  {| entity_store := es; component_store := component_store w;
     uuid_v4 := uuid_v4 w; drawn := drawn w; console := console w |}.
Definition with_components (cs : list Component.obj) (w : World) : World :=
  {| entity_store := entity_store w; component_store := cs;
     uuid_v4 := uuid_v4 w; drawn := drawn w; console := console w |}.
Definition with_drawn (n : nat) (w : World) : World :=
  {| entity_store := entity_store w; component_store := component_store w;
     uuid_v4 := uuid_v4 w; drawn := n; console := console w |}.
Definition with_console (c : list message) (w : World) : World :=
  {| entity_store := entity_store w; component_store := component_store w;
     uuid_v4 := uuid_v4 w; drawn := drawn w; console := c |}.

(** ** Computations: state that survives an exception *)

Inductive exn :=
  | TypeError (msg : string)
  (** a name for an object the store does not hold: no program reaches this,
      the embedding needs it to be total *)
  | BadRef (l : loc).

Inductive completion (A : Type) :=
  | Normal (a : A)
  | Throw (e : exn).
Arguments Normal {A} a.
Arguments Throw {A} e.

Definition Js (A : Type) : Type := World → completion A * World.

#[global] Instance Js_ret : MRet Js := λ A a w, (Normal a, w).
#[global] Instance Js_bind : MBind Js := λ A B f m w,
  match m w with
  | (Normal a, w') => f a w'
  | (Throw e, w') => (Throw e, w')
  end.

Definition throw {A} (e : exn) : Js A := λ w, (Throw e, w).

Definition get_entity (e : loc) : Js Entity.obj := λ w,
  match entity_store w !! e with
  | Some o => (Normal o, w)
  | None => (Throw (BadRef e), w)
  end.

(** [this.p = v], with the setter of [p] for [f]. *)
Definition assign (this : loc) (f : Entity.obj → Entity.obj) : Js unit := λ w,
  match entity_store w !! this with
  | Some _ => (Normal (), with_entities (alter f this (entity_store w)) w)
  | None => (Throw (BadRef this), w)
  end.

Definition alloc_entity (o : Entity.obj) : Js loc := λ w,
  (Normal (length (entity_store w)), with_entities (entity_store w ++ [o]) w).

Definition get_component (c : loc) : Js Component.obj := λ w,
  match component_store w !! c with
  | Some o => (Normal o, w)
  | None => (Throw (BadRef c), w)
  end.

Definition put_component (c : loc) (o : Component.obj) : Js unit := λ w,
  match component_store w !! c with
  | Some _ => (Normal (), with_components (<[c := o]> (component_store w)) w)
  | None => (Throw (BadRef c), w)
  end.

Definition alloc_component (o : Component.obj) : Js loc := λ w,
  (Normal (length (component_store w)), with_components (component_store w ++ [o]) w).

(** [UUID()] *)
Definition UUID : Js prim := λ w,
  (Normal (Str (uuid_v4 w (drawn w))), with_drawn (S (drawn w)) w).

Definition console_warn (pieces : list prim) : Js unit := λ w,
  (Normal (), with_console (console w ++ [warn pieces]) w).

Definition console_info (m : message) : Js unit := λ w,
  (Normal (), with_console (console w ++ [m]) w).

(** [array.forEach( f )] *)
Fixpoint forEach {A} (array : list A) (f : A → Js unit) : Js unit :=
  match array with
  | [] => mret ()
  | item :: rest => f item ;; forEach rest f
  end.

(** ** Component (its contract, as Entity consumes it) *)

(** Modelled from the spec: [new Component( data )] builds the component
    the configuration entry describes. *)
Definition new_Component (data : Config.component) : Js loc :=
  alloc_component {| Component._type := Config.ctype data;
                     Component._data := Config.cdata data |}.

(** Modelled from the spec: [getType()] is the "stable identity string". *)
Definition Component_getType (this : loc) : Js string :=
  o ← get_component this; mret (Component._type o).

(** Modelled from the spec: [getData()] is the "current payload". *)
Definition Component_getData (this : loc) : Js object :=
  o ← get_component this; mret (Component._data o).

(** Modelled from the spec: [clone()] is an "independent deep copy, same
    type": a new object, with its own payload. *)
Definition Component_clone (this : loc) : Js loc :=
  o ← get_component this;
  alloc_component {| Component._type := Component._type o;
                     Component._data := Component._data o |}.

(** Modelled from the spec: [apply( partialData )] does "merge partial
    fields into existing payload, in place". *)
Definition Component_apply (this : loc) (partialData : object) : Js unit :=
  o ← get_component this;
  put_component this {| Component._type := Component._type o;
                        Component._data := partialData ∪ Component._data o |}.

(** [item[ prop ]] on a Component, for [prop] the name of one of its two
    properties. *)
Definition Component_prop (item : Component.obj) (prop : Component.key) : value :=
  match prop with
  | Component.key_type => Prim (Str (Component._type item))
  | Component.key_data => Object (Component._data item)
  end.

(** [v === target] for a primitive [target]: an object is never equal to it. *)
Definition value_is (v : value) (target : prim) : bool :=
  match v with
  | Prim p => strict_eq p target
  | _ => false
  end.

(** ** src/utils *)

(** [array.find( ( item ) => item[ prop ] === target )] on an array of
    Components: the first match, or [None] for [undefined]. *)
Fixpoint Array_find (target : prim) (array : list loc) (prop : Component.key)
    : Js (option loc) :=
  match array with
  | [] => mret None
  | ref :: rest =>
      item ← get_component ref;
      if value_is (Component_prop item prop) target then mret (Some ref)
      else Array_find target rest prop
  end.

(** utils/hasItem.js, on an array of Components and for [prop] the name
    of one of their properties (Entity passes ["_type"]): [!match] is
    false for a Component, which is an object. *)
Definition hasItem (target : prim) (array : list loc) (prop : Component.key) : Js bool :=
  match_ ← Array_find target array prop;
  match match_ with
  | None => mret false
  | Some _ => mret true
  end.

(** Modelled from the spec: utils/getItem.js is not among the sources.
    Entity documents its result as the "Requested component, or null if not
    found"; [None] is that null. *)
Definition getItem (target : prim) (array : list loc) (prop : Component.key)
    : Js (option loc) :=
  Array_find target array prop.

(** [array.indexOf( x )], where [x] is a Component or null and the array
    holds Components; [None] is -1. *)
Fixpoint indexOf_from (i : nat) (array : list loc) (x : loc) : option nat :=
  match array with
  | [] => None
  | y :: rest => if Nat.eqb y x then Some i else indexOf_from (S i) rest x
  end.

Definition indexOf (array : list loc) (x : option loc) : option nat :=
  match x with
  | None => None
  | Some c => indexOf_from 0 array c
  end.

(** ** src/core/Entity.js *)

Definition getComponents (this : loc) : Js (list loc) :=
  o ← get_entity this; mret (Entity._components o).

Definition getName (this : loc) : Js prim :=
  o ← get_entity this; mret (Entity._name o).

Definition getTasks (this : loc) : Js (list object) :=
  o ← get_entity this; mret (Entity._tasks o).

Definition getType (this : loc) : Js prim :=
  o ← get_entity this; mret (Entity._type o).

Definition getUUID (this : loc) : Js prim :=
  o ← get_entity this; mret (Entity._uuid o).

Definition isDirty (this : loc) : Js prim :=
  o ← get_entity this; mret (Entity._dirty o).

(** [getComponent( type )]: the Component, or [None] for null. *)
Definition getComponent (this : loc) (type : string) : Js (option loc) :=
  o ← get_entity this;
  getItem (Str type) (Entity._components o) Component.key_type.

Definition hasComponent (this : loc) (type : string) : Js bool :=
  o ← get_entity this;
  hasItem (Str type) (Entity._components o) Component.key_type.

Definition getComponentList (this : loc) : Js (list string) :=
  o ← get_entity this;
  foldr (λ component rest,
           type ← Component_getType component;
           componentTypes ← rest;
           mret (type :: componentTypes))
        (mret []) (Entity._components o).

(** [this._tasks[ 0 ]] *)
Definition getCurrentTask (this : loc) : Js value :=
  o ← get_entity this;
  match Entity._tasks o !! 0 with
  | Some task => mret (Object task)
  | None => mret (Prim Undefined)
  end.

Definition getData (this : loc) (type : string) : Js value :=
  component ← getComponent this type;
  match component with
  | None =>
      console_warn [Str "Component with type "; Str type; Str " doesn't exist!"];;
      mret (Prim Null)
  | Some component =>
      data ← Component_getData component;
      mret (Object data)
  end.

(** A parameter [arg = d]: the default stands in for an argument that is
    left out ([None]) or undefined. *)
Definition or_default (d : prim) (arg : option prim) : prim :=
  match arg with
  | None | Some Undefined => d
  | Some v => v
  end.

(** [setDirty( dirty = true )], for a primitive argument: whatever is
    passed is stored and returned. *)
Definition setDirty (this : loc) (dirty : option prim) : Js prim :=
  assign this (Entity.set_dirty (or_default (Bool true) dirty));;
  isDirty this.

(** [this._components.push( component )] *)
Definition push_component (this : loc) (component : loc) : Js unit :=
  assign this (λ o, Entity.set_components (Entity._components o ++ [component]) o).

Definition _addComponent (this : loc) (component : loc) : Js value :=
  type ← Component_getType component;
  exists_ ← hasComponent this type;
  if (exists_ : bool) then
    uuid ← getUUID this;
    console_warn [Str "Couldn't add "; Str type; Str " to "; uuid;
                  Str ": Component already exists!"];;
    mret (Prim Null)
  else
    push_component this component;;
    assign this (Entity.set_dirty (Bool true));;
    components ← getComponents this;
    mret (Component_array components).

Definition _removeComponent (this : loc) (type : string) : Js value :=
  found ← getComponent this type;
  components ← getComponents this;
  match indexOf components found with
  | None =>
      console_warn [Str "Component with id "; Str type; Str "doesn't exist!"];;
      mret (Prim Null)
  | Some index =>
      (* splice( index, 1 ) *)
      assign this (λ o, Entity.set_components (delete index (Entity._components o)) o);;
      assign this (Entity.set_dirty (Bool true));;
      components ← getComponents this;
      mret (Component_array components)
  end.

(** The body of the constructor, run on the object [new] has allocated.
    [None] is a call without [config] (or with a falsy one). *)
Definition constructor (this : loc) (config : option Config.t) : Js loc :=
  match config with
  | Some config =>
      uuid ← (if truthy (Config.uuid config) then mret (Config.uuid config) else UUID);
      assign this (Entity.set_uuid uuid);;
      assign this (Entity.set_type (or_else (Config.type config) (Str "no-type")));;
      assign this (Entity.set_name (or_else (Config.name config) (Str "No Name")));;
      assign this (Entity.set_components []);;
      match Config.components config with
      | None => throw (TypeError "Cannot read property 'forEach' of undefined")
      | Some components =>
          forEach components (λ data,
            component ← new_Component data;
            _addComponent this component;;
            mret ())
      end;;
      assign this (Entity.set_tasks (default [] (Config.tasks config)));;
      assign this (Entity.set_tasksDirty (Bool false))
  | None =>
      uuid ← UUID;
      assign this (Entity.set_uuid uuid);;
      assign this (Entity.set_type (Str "untyped"));;
      assign this (Entity.set_name (Str "No Name"));;
      assign this (Entity.set_components []);;
      assign this (Entity.set_tasks [])
  end;;
  assign this (Entity.set_dirty (Bool false));;
  mret this.

(** [new C( config )] for a class [C] that has Entity's constructor. *)
Definition new_Entity (C : string) (config : option Config.t) : Js loc :=
  this ← alloc_entity (Entity.blank C);
  constructor this config.

Definition copy (this : loc) (source : loc) : Js value :=
  type ← getType source;
  assign this (Entity.set_type type);;
  name ← getName source;
  assign this (Entity.set_name name);;
  assign this (Entity.set_components []);;
  components ← getComponents source;
  forEach components (λ component,
    cloned ← Component_clone component;
    push_component this cloned);;
  assign this (Entity.set_dirty (Bool true));;
  components ← getComponents this;
  mret (Component_array components).

Definition clone (this : loc) : Js value :=
  o ← get_entity this;
  fresh ← new_Entity (Entity.class o) None;
  copy fresh this.

Fixpoint read_components (refs : list loc) : Js (list Component.obj) :=
  match refs with
  | [] => mret []
  | ref :: rest =>
      item ← get_component ref;
      items ← read_components rest;
      mret (item :: items)
  end.

Definition print (this : loc) : Js value :=
  o ← get_entity this;
  components ← read_components (Entity._components o);
  console_info (info o components);;
  mret (Entity_ref this).

(** The [for] loop of [setComponentData], over the components from index
    [i] on; nothing in its body changes the array before it returns. *)
Fixpoint setComponentData_loop (this : loc) (components : list loc)
    (type : string) (data : object) : Js value :=
  match components with
  | [] =>
      console_warn [Str "Component with type "; Str type; Str " doesn't exist!"];;
      mret (Prim Null)
  | component :: rest =>
      t ← Component_getType component;
      if String.eqb t type then
        Component_apply component data;;
        setDirty this None;;
        mret (Component_ref component)
      else setComponentData_loop this rest type data
  end.

Definition setComponentData (this : loc) (type : string) (data : object) : Js value :=
  components ← getComponents this;
  setComponentData_loop this components type data.

(** [return this.tasks]: Entity has no property of that name. *)
Definition this_tasks : Js value := mret (Prim Undefined).

Definition setTasks (this : loc) (tasks : list object) : Js value :=
  assign this (Entity.set_tasks tasks);;
  assign this (Entity.set_tasksDirty (Bool true));;
  setDirty this None;;
  this_tasks.

Definition appendTasks (this : loc) (tasks : list object) : Js value :=
  o ← get_entity this;
  (* this._tasks.concat( tasks ): a new array, which nothing keeps *)
  let concatenated := Entity._tasks o ++ tasks in
  setDirty this None;;
  this_tasks.

Definition insertTasks (this : loc) (tasks : list object) : Js value :=
  o ← get_entity this;
  assign this (Entity.set_tasks (tasks ++ Entity._tasks o));;
  assign this (Entity.set_tasksDirty (Bool true));;
  setDirty this None;;
  this_tasks.

Definition advanceTasks (this : loc) : Js value :=
  (* shift() *)
  assign this (λ o, Entity.set_tasks (tail (Entity._tasks o)) o);;
  assign this (Entity.set_tasksDirty (Bool true));;
  setDirty this None;;
  this_tasks.

#[global] Instance Js_fmap : FMap Js := λ A B f m, a ← m; mret (f a).

(** ** Calls *)

(** A method call on an entity, with its arguments. *)
Inductive call :=
  | call_addComponent (component : loc)
  | call_removeComponent (type : string)
  | call_clone
  | call_copy (source : loc)
  | call_getComponent (type : string)
  | call_getComponentList
  | call_getComponents
  | call_getCurrentTask
  | call_getData (type : string)
  | call_getName
  | call_getTasks
  | call_getType
  | call_getUUID
  | call_hasComponent (type : string)
  | call_isDirty
  | call_print
  | call_setComponentData (type : string) (data : object)
  | call_setDirty (dirty : option prim)
  | call_setTasks (tasks : list object)
  | call_appendTasks (tasks : list object)
  | call_insertTasks (tasks : list object)
  | call_advanceTasks.

Definition invoke (this : loc) (c : call) : Js value :=
  match c with
  | call_addComponent component => _addComponent this component
  | call_removeComponent type => _removeComponent this type
  | call_clone => clone this
  | call_copy source => copy this source
  | call_getComponent type =>
      found ← getComponent this type;
      mret (from_option Component_ref (Prim Null) found)
  | call_getComponentList => String_array <$> getComponentList this
  | call_getComponents => Component_array <$> getComponents this
  | call_getCurrentTask => getCurrentTask this
  | call_getData type => getData this type
  | call_getName => Prim <$> getName this
  | call_getTasks => Task_array <$> getTasks this
  | call_getType => Prim <$> getType this
  | call_getUUID => Prim <$> getUUID this
  | call_hasComponent type => (λ b, Prim (Bool b)) <$> hasComponent this type
  | call_isDirty => Prim <$> isDirty this
  | call_print => print this
  | call_setComponentData type data => setComponentData this type data
  | call_setDirty dirty => Prim <$> setDirty this dirty
  | call_setTasks tasks => setTasks this tasks
  | call_appendTasks tasks => appendTasks this tasks
  | call_insertTasks tasks => insertTasks this tasks
  | call_advanceTasks => advanceTasks this
  end.

(** The world after a series of calls on [this], whatever each one returns. *)
Definition after_calls (this : loc) (calls : list call) (w : World) : World :=
  foldl (λ w c, (invoke this c w).2) w calls.

(** The mutating calls of the dirty-flag rule. *)
Definition is_mutation (c : call) : bool :=
  match c with
  | call_addComponent _ | call_removeComponent _ | call_copy _
  | call_setComponentData _ _ | call_setTasks _ | call_appendTasks _
  | call_insertTasks _ | call_advanceTasks => true
  | _ => false
  end.

(** The calls the source marks [@readonly], [getData] and [print], which
    write to the console, apart. *)
Definition is_query (c : call) : bool :=
  match c with
  | call_getComponent _ | call_getComponentList | call_getComponents
  | call_getCurrentTask | call_getName | call_getTasks | call_getType
  | call_getUUID | call_hasComponent _ | call_isDirty => true
  | _ => false
  end.

(** The component-management calls of the uniqueness rule. *)
Definition is_add_or_remove (c : call) : bool :=
  match c with
  | call_addComponent _ | call_removeComponent _ => true
  | _ => false
  end.

(** ** Reading a world *)

Definition type_at (w : World) (c : loc) : option string :=
  Component._type <$> component_store w !! c.

Definition data_at (w : World) (c : loc) : option object :=
  Component._data <$> component_store w !! c.

Definition components_of (w : World) (e : loc) : list loc :=
  from_option Entity._components [] (entity_store w !! e).

Definition dirty_at (w : World) (e : loc) : Prop :=
  Entity._dirty <$> entity_store w !! e = Some (Bool true).

(** The entity exists and every Component it holds exists. *)
Definition valid (w : World) (e : loc) : Prop :=
  is_Some (entity_store w !! e) ∧
  Forall (λ c, c < length (component_store w)) (components_of w e).

(** The first of [cs] whose type is [type]: what [Array_find] computes. *)
Fixpoint find_type (w : World) (type : string) (cs : list loc) : option loc :=
  match cs with
  | [] => None
  | c :: rest =>
      if bool_decide (type_at w c = Some type) then Some c
      else find_type w type rest
  end.

(** How many Components of [e] have type [T]. *)
Definition count_type (w : World) (e : loc) (T : string) : nat :=
  length (filter (λ c, type_at w c = Some T) (components_of w e)).

(** The Component objects that [cs] name in the store [σ]. *)
Definition cells (σ : list Component.obj) (cs : list loc) : list Component.obj :=
  omap (λ c, σ !! c) cs.

(** No two Components of [e] have the same type. *)
Definition unique_types (w : World) (e : loc) : Prop :=
  valid w e ∧ NoDup (type_at w <$> components_of w e).

(** The entities [a] and [b] hold no Component in common, and setting
    Component data through either leaves what [getData] returns on the
    other as it was, for every type. *)
Definition independent (w : World) (a b : loc) : Prop :=
  (∀ c, c ∈ components_of w a → c ∉ components_of w b) ∧
  (∀ type data T,
     (getData b T (setComponentData a type data w).2).1 = (getData b T w).1) ∧
  (∀ type data T,
     (getData a T (setComponentData b type data w).2).1 = (getData a T w).1).

(** [m] clears the dirty flag of no entity among [P], however it completes. *)
Definition keeps_dirty {A} (P : loc → Prop) (m : Js A) : Prop :=
  ∀ w x, P x → dirty_at w x → dirty_at (m w).2 x.

(** When [m] returns something other than null, [this] is dirty. *)
Definition marks_dirty (this : loc) (m : Js value) : Prop :=
  ∀ w v w', m w = (Normal v, w') → v ≠ Prim Null → dirty_at w' this.

(** The object [new Component( data )] builds. *)
Definition component_built (data : Config.component) : Component.obj :=
  {| Component._type := Config.ctype data; Component._data := Config.cdata data |}.

(** [m] leaves the world as it finds it, however it completes. *)
Definition read_only {A} (m : Js A) : Prop := ∀ w, (m w).2 = w.

(** A mutating call has something to do: the Component to add exists and
    is of a type the entity lacks; the type to remove or to update is one
    the entity has; the source of a copy is an entity whose Components
    exist.  The task operations always have. *)
Definition applicable (this : loc) (c : call) (w : World) : Prop :=
  match c with
  | call_addComponent component =>
      ∃ type, Component_getType component w = (Normal type, w) ∧
              hasComponent this type w = (Normal false, w)
  | call_removeComponent type | call_setComponentData type _ =>
      hasComponent this type w = (Normal true, w)
  | call_copy source => valid w source
  | _ => True
  end.

(** No entity of the world has two Components of a type. *)
Definition all_unique (w : World) : Prop :=
  ∀ x, is_Some (entity_store w !! x) → unique_types w x.

(** [m] allocates no entity, changes the type of no Component and leaves
    the Components of the entities among [P] as they were, however it
    completes. *)
Definition keeps_structure {A} (P : loc → Prop) (m : Js A) : Prop :=
  ∀ w,
    length (entity_store (m w).2) = length (entity_store w) ∧
    (∀ c, type_at (m w).2 c = type_at w c) ∧
    (∀ x, P x → components_of (m w).2 x = components_of w x).

(** [this.tasksDirty] is true. *)
Definition tasksDirty_at (w : World) (e : loc) : Prop :=
  Entity.tasksDirty <$> entity_store w !! e = Some (Bool true).

(** [m] sets a true [tasksDirty] back for no entity among [P], however it
    completes. *)
Definition keeps_tasksDirty {A} (P : loc → Prop) (m : Js A) : Prop :=
  ∀ w x, P x → tasksDirty_at w x → tasksDirty_at (m w).2 x.

(** What a program does with the class: [new C( config )],
    [new Component( data )], or a method call on an entity. *)
Inductive step :=
  | step_new (C : string) (config : option Config.t)
  | step_new_Component (data : Config.component)
  | step_call (this : loc) (c : call).

(** The world after a step, whether it returns or throws. *)
Definition run_step (s : step) (w : World) : World :=
  match s with
  | step_new C config => (new_Entity C config w).2
  | step_new_Component data => (new_Component data w).2
  | step_call this c => (invoke this c w).2
  end.

Definition after_steps (steps : list step) (w : World) : World :=
  foldl (λ w s, run_step s w) w steps.

(** A field of the configuration record as if it had been left out when
    its value is falsy. *)
Definition absent_if_falsy (p : prim) : prim := if truthy p then p else Undefined.

Definition without_falsy (config : Config.t) : Config.t :=
  {| Config.uuid := absent_if_falsy (Config.uuid config);
     Config.type := absent_if_falsy (Config.type config);
     Config.name := absent_if_falsy (Config.name config);
     Config.components := Config.components config;
     Config.tasks := Config.tasks config |}.

(** ** A small scene, for concrete evaluation *)

Definition empty_world : World :=
  {| entity_store := []; component_store := [];
     uuid_v4 := λ n, "uuid-" +:+ pretty n; drawn := 0; console := [] |}.

Definition position : Config.component :=
  {| Config.ctype := "position"; Config.cdata := {[ "x" := Num 1 ]} |}.
Definition health : Config.component :=
  {| Config.ctype := "health"; Config.cdata := {[ "hp" := Num 100 ]} |}.
Definition move_task : object := {[ "action" := Str "move" ]}.
Definition fire_task : object := {[ "action" := Str "fire" ]}.
Definition halt_task : object := {[ "action" := Str "halt" ]}.

Definition tank_config : Config.t :=
  {| Config.uuid := Str "tank-1"; Config.type := Str "unit"; Config.name := Str "Tank";
     Config.components := Some [position; health];
     Config.tasks := Some [move_task] |}.

(** The world after [new Entity( tank_config )]: entity 0, the tank, holds
    the Components 0 and 1. *)
Definition scene : World := (new_Entity "Entity" (Some tank_config) empty_world).2.

Definition tank : Entity.obj :=
  {| Entity.class := "Entity"; Entity._uuid := Str "tank-1"; Entity._type := Str "unit";
     Entity._name := Str "Tank"; Entity._components := [0; 1];
     Entity._tasks := [move_task]; Entity.tasksDirty := Bool false;
     Entity._dirty := Bool false |}.

Definition patrol_config : Config.t :=
  {| Config.uuid := Str "scout-1"; Config.type := Str "unit"; Config.name := Str "Scout";
     Config.components := Some [position];
     Config.tasks := Some [move_task; fire_task; halt_task] |}.

(** The world after [new Entity( patrol_config )]: entity 0, the scout, has
    three tasks. *)
Definition patrol_scene : World :=
  (new_Entity "Entity" (Some patrol_config) empty_world).2.

Definition patrol : Entity.obj :=
  {| Entity.class := "Entity"; Entity._uuid := Str "scout-1"; Entity._type := Str "unit";
     Entity._name := Str "Scout"; Entity._components := [0];
     Entity._tasks := [move_task; fire_task; halt_task]; Entity.tasksDirty := Bool false;
     Entity._dirty := Bool false |}.

(** A record whose uuid, type and name are empty strings, and which names
    the position Component twice. *)
Definition nameless_config : Config.t :=
  {| Config.uuid := Str ""; Config.type := Str ""; Config.name := Str "";
     Config.components := Some [position; position]; Config.tasks := None |}.

(** The world after [new Entity( nameless_config )] in the scene: entity 1
    holds Component 2 (a position); Component 3, the second position of
    the record, belongs to no entity. *)
Definition two_entities : World :=
  (new_Entity "Entity" (Some nameless_config) scene).2.

(** * Proofs *)

(** ** Running computations *)

Lemma bind_eq {A B} (m : Js A) (f : A → Js B) w :
  (m ≫= f) w =
  match m w with
  | (Normal a, w') => f a w'
  | (Throw e, w') => (Throw e, w')
  end.
Proof. reflexivity. Qed.

Lemma bind_normal {A B} (m : Js A) (f : A → Js B) w a w1 :
  m w = (Normal a, w1) → (m ≫= f) w = f a w1.
Proof. intros H. rewrite bind_eq, H. reflexivity. Qed.

Lemma bind_throw {A B} (m : Js A) (f : A → Js B) w e w1 :
  m w = (Throw e, w1) → (m ≫= f) w = (Throw e, w1).
Proof. intros H. rewrite bind_eq, H. reflexivity. Qed.

Lemma bind_inv {A B} (m : Js A) (f : A → Js B) w b w' :
  (m ≫= f) w = (Normal b, w') →
  ∃ a w1, m w = (Normal a, w1) ∧ f a w1 = (Normal b, w').
Proof.
  rewrite bind_eq. destruct (m w) as [[a|e] w1]; [eauto | discriminate].
Qed.

Lemma bind_assoc {A B C} (m : Js A) (f : A → Js B) (g : B → Js C) w :
  ((m ≫= f) ≫= g) w = (m ≫= λ a, f a ≫= g) w.
Proof. rewrite !bind_eq. destruct (m w) as [[a|e] w1]; reflexivity. Qed.

Lemma ret_eq {A} (a : A) w : (mret a : Js A) w = (Normal a, w).
Proof. reflexivity. Qed.

Lemma get_entity_run w e o :
  entity_store w !! e = Some o → get_entity e w = (Normal o, w).
Proof. intros H. unfold get_entity. rewrite H. reflexivity. Qed.

Lemma assign_run w e o f :
  entity_store w !! e = Some o →
  assign e f w = (Normal (), with_entities (alter f e (entity_store w)) w).
Proof. intros H. unfold assign. rewrite H. reflexivity. Qed.

Lemma get_component_run w c o :
  component_store w !! c = Some o → get_component c w = (Normal o, w).
Proof. intros H. unfold get_component. rewrite H. reflexivity. Qed.

(** Symbolic execution: run the head of a bind on objects that are known. *)
Ltac js_simpl :=
  cbn [entity_store component_store console drawn uuid_v4
       with_entities with_components with_console with_drawn fst snd] in *.

Ltac js_lookup :=
  js_simpl;
  rewrite ?list_lookup_alter_eq;
  rewrite ?list_lookup_alter_ne by congruence;
  first
    [ eassumption
    | match goal with
      | H : entity_store _ !! ?e = Some _ |- context [ entity_store _ !! ?e ] =>
          rewrite H; reflexivity
      | H : component_store _ !! ?c = Some _ |- context [ component_store _ !! ?c ] =>
          rewrite H; reflexivity
      end
    | rewrite list_lookup_middle by reflexivity; reflexivity ].

Ltac js_step :=
  first
    [ rewrite ret_eq
    | rewrite bind_assoc
    | erewrite bind_throw by reflexivity
    | erewrite bind_normal by
        (first [ apply ret_eq
               | eapply get_entity_run; js_lookup
               | eapply assign_run; js_lookup
               | eapply get_component_run; js_lookup
               | eassumption ]) ];
  js_simpl.

Lemma setDirty_run w e o dirty :
  entity_store w !! e = Some o →
  setDirty e dirty w =
    (Normal (or_default (Bool true) dirty),
     with_entities
       (alter (Entity.set_dirty (or_default (Bool true) dirty)) e (entity_store w)) w).
Proof.
  intros H. unfold setDirty, isDirty. repeat js_step. reflexivity.
Qed.

(** ** Tasks *)

(** C8. The task sequence is first-in first-out: [advanceTasks()] completes
    and drops the front task, so that from [[t1, t2, t3]] the sequence is
    [[t2, t3]] and [getCurrentTask()] then returns [t2]; on an empty
    sequence it completes as well and the sequence stays empty. *)
Theorem advanceTasks_fifo (w : World) (this : loc) (o : Entity.obj) :
  entity_store w !! this = Some o →
  ∃ w1,
    advanceTasks this w = (Normal (Prim Undefined), w1) ∧
    getTasks this w1 = (Normal (tail (Entity._tasks o)), w1) ∧
    (∀ t1 t2 t3, Entity._tasks o = [t1; t2; t3] →
       getTasks this w1 = (Normal [t2; t3], w1) ∧
       getCurrentTask this w1 = (Normal (Object t2), w1)) ∧
    (Entity._tasks o = [] →
       getTasks this w1 = (Normal [], w1) ∧
       getCurrentTask this w1 = (Normal (Prim Undefined), w1)).
Proof.
  intros H. eexists. split.
  { unfold advanceTasks. do 2 js_step.
    erewrite bind_normal by (eapply setDirty_run; js_lookup).
    reflexivity. }
  assert (G : ∀ w1 (ts : list object),
             entity_store w1 !! this =
               Some (Entity.set_dirty (Bool true) (Entity.set_tasksDirty (Bool true)
                      (Entity.set_tasks (tail (Entity._tasks o)) o))) →
             tail (Entity._tasks o) = ts →
             getTasks this w1 = (Normal ts, w1) ∧
             getCurrentTask this w1 =
               (Normal (from_option Object (Prim Undefined) (ts !! 0)), w1)).
  { intros w1 ts Hw1 Hts. unfold getTasks, getCurrentTask. split.
    - repeat js_step. cbn. rewrite Hts. reflexivity.
    - js_step. cbn. rewrite Hts. destruct ts; reflexivity. }
  assert (Hl : ∀ X, entity_store
     (with_entities
        (alter (Entity.set_dirty (Bool (default true None))) this
           (alter (Entity.set_tasksDirty (Bool true)) this
              (alter (λ o0, Entity.set_tasks (tail (Entity._tasks o0)) o0) this
                 (entity_store w)))) X) !! this
    = Some (Entity.set_dirty (Bool true) (Entity.set_tasksDirty (Bool true)
             (Entity.set_tasks (tail (Entity._tasks o)) o)))).
  { intros X. cbn. rewrite !list_lookup_alter_eq, H. reflexivity. }
  split; [|split].
  - eapply G; [apply Hl | reflexivity].
  - intros t1 t2 t3 Ht. eapply (G _ [t2; t3]); [apply Hl | rewrite Ht; reflexivity].
  - intros Ht. eapply (G _ []); [apply Hl | rewrite Ht; reflexivity].
Qed.

Lemma advanceTasks_fifo_witness :
  ∃ w1,
    advanceTasks 0 patrol_scene = (Normal (Prim Undefined), w1) ∧
    getTasks 0 w1 = (Normal [fire_task; halt_task], w1) ∧
    getCurrentTask 0 w1 = (Normal (Object fire_task), w1).
Proof.
  destruct (advanceTasks_fifo patrol_scene 0 patrol eq_refl) as (w1 & Hrun & _ & H3 & _).
  exists w1. split; [exact Hrun|]. exact (H3 move_task fire_task halt_task eq_refl).
Defined.

(** C3. [appendTasks( tasks )] completes, leaves the stored task sequence
    as it was and sets [dirty]; it does not touch [tasksDirty], which keeps
    the value it had before the call, where [setTasks], [insertTasks] and
    [advanceTasks] set it to true. *)
Theorem appendTasks_leaves_tasksDirty (w : World) (this : loc) (o : Entity.obj)
    (tasks : list object) :
  entity_store w !! this = Some o →
  ∃ w1 o1,
    appendTasks this tasks w = (Normal (Prim Undefined), w1) ∧
    entity_store w1 !! this = Some o1 ∧
    getTasks this w1 = (Normal (Entity._tasks o), w1) ∧
    Entity._dirty o1 = Bool true ∧
    Entity.tasksDirty o1 = Entity.tasksDirty o.
Proof.
  intros H. do 2 eexists. split; [|split; [|split]].
  - unfold appendTasks, this_tasks. js_step.
    erewrite bind_normal by (eapply setDirty_run; js_lookup).
    reflexivity.
  - js_lookup.
  - unfold getTasks. repeat js_step. reflexivity.
  - split; reflexivity.
Qed.

Lemma appendTasks_leaves_tasksDirty_witness :
  ∃ w1 o1,
    appendTasks 0 [fire_task] scene = (Normal (Prim Undefined), w1) ∧
    entity_store w1 !! 0 = Some o1 ∧
    getTasks 0 w1 = (Normal [move_task], w1) ∧
    Entity._dirty o1 = Bool true ∧
    Entity.tasksDirty o1 = Bool false.
Proof. exact (appendTasks_leaves_tasksDirty scene 0 tank [fire_task] eq_refl). Defined.

(** ** Construction and cloning: what the caller gets *)

Ltac js_inv H :=
  repeat (apply bind_inv in H; destruct H as (? & ? & ? & H)).

Lemma copy_value this source w v w' :
  copy this source w = (Normal v, w') → ∃ cs, v = Component_array cs.
Proof.
  unfold copy. intros H. js_inv H.
  rewrite ret_eq in H. injection H as <- _. eauto.
Qed.

Lemma new_Entity_without_components (C : string) (w : World)
    (uuid type name : prim) (tasks : option (list object)) :
  ∃ w',
    new_Entity C (Some {| Config.uuid := uuid; Config.type := type; Config.name := name;
                          Config.components := None; Config.tasks := tasks |}) w
      = (Throw (TypeError "Cannot read property 'forEach' of undefined"), w') ∧
    Entity._dirty <$> entity_store w' !! length (entity_store w) = Some Undefined ∧
    Entity.tasksDirty <$> entity_store w' !! length (entity_store w) = Some Undefined.
Proof.
  unfold new_Entity, constructor.
  erewrite bind_normal by reflexivity.
  cbn [Config.uuid Config.type Config.name Config.components Config.tasks].
  destruct (truthy uuid).
  - repeat js_step. eexists. split; [reflexivity|].
    js_simpl. rewrite !list_lookup_alter_eq, list_lookup_middle by reflexivity.
    split; reflexivity.
  - rewrite bind_assoc. erewrite bind_normal by reflexivity.
    repeat js_step. eexists. split; [reflexivity|].
    js_simpl. rewrite !list_lookup_alter_eq, list_lookup_middle by reflexivity.
    split; reflexivity.
Qed.

(** ** Looking Components up by type *)

Lemma type_at_Some w c item :
  component_store w !! c = Some item → type_at w c = Some (Component._type item).
Proof. intros H. unfold type_at. rewrite H. reflexivity. Qed.

Lemma value_is_type item type :
  value_is (Component_prop item Component.key_type) (Str type)
  = bool_decide (Component._type item = type).
Proof. cbn. apply bool_decide_ext. split; congruence. Qed.

Lemma Array_find_run type cs w :
  Forall (λ c, c < length (component_store w)) cs →
  Array_find (Str type) cs Component.key_type w = (Normal (find_type w type cs), w).
Proof.
  induction 1 as [|c cs Hc _ IH]; [reflexivity|].
  apply lookup_lt_is_Some_2 in Hc as [item Hi].
  cbn [Array_find find_type]. js_step.
  rewrite value_is_type, (type_at_Some _ _ _ Hi).
  destruct (decide (Component._type item = type)) as [->|Hne].
  - rewrite !bool_decide_eq_true_2 by reflexivity. reflexivity.
  - rewrite !bool_decide_eq_false_2 by congruence. exact IH.
Qed.

Lemma find_type_None w type cs :
  find_type w type cs = None ↔ Some type ∉ type_at w <$> cs.
Proof.
  induction cs as [|c cs IH]; cbn.
  - split; [intros _ H; inversion H | reflexivity].
  - case_bool_decide as Hc.
    + split; [discriminate|]. intros H. exfalso. apply H. rewrite Hc. left.
    + rewrite IH, not_elem_of_cons. split; [intros ?; split; congruence | tauto].
Qed.

Lemma components_of_lookup w e o :
  entity_store w !! e = Some o → components_of w e = Entity._components o.
Proof. intros H. unfold components_of. rewrite H. reflexivity. Qed.

Lemma valid_lookup w e :
  valid w e →
  ∃ o, entity_store w !! e = Some o ∧
       Forall (λ c, c < length (component_store w)) (Entity._components o).
Proof.
  intros [[o Ho] Hv]. rewrite (components_of_lookup _ _ _ Ho) in Hv. eauto.
Qed.

Lemma getComponent_run w this o type :
  entity_store w !! this = Some o →
  Forall (λ c, c < length (component_store w)) (Entity._components o) →
  getComponent this type w = (Normal (find_type w type (Entity._components o)), w).
Proof.
  intros Ho Hv. unfold getComponent, getItem. js_step. apply Array_find_run, Hv.
Qed.

Lemma hasComponent_run w this o type :
  entity_store w !! this = Some o →
  Forall (λ c, c < length (component_store w)) (Entity._components o) →
  hasComponent this type w
  = (Normal (bool_decide (is_Some (find_type w type (Entity._components o)))), w).
Proof.
  intros Ho Hv. unfold hasComponent, hasItem. js_step.
  erewrite bind_normal by (apply Array_find_run, Hv).
  destruct (find_type w type (Entity._components o)); reflexivity.
Qed.

Lemma Component_getType_run w c item :
  component_store w !! c = Some item →
  Component_getType c w = (Normal (Component._type item), w).
Proof. intros H. unfold Component_getType. repeat js_step. reflexivity. Qed.

Lemma _addComponent_run w this o c item :
  entity_store w !! this = Some o →
  Forall (λ c, c < length (component_store w)) (Entity._components o) →
  component_store w !! c = Some item →
  _addComponent this c w =
    match find_type w (Component._type item) (Entity._components o) with
    | Some _ =>
        (Normal (Prim Null),
         with_console (console w ++
           [warn [Str "Couldn't add "; Str (Component._type item); Str " to ";
                  Entity._uuid o; Str ": Component already exists!"]]) w)
    | None =>
        (Normal (Component_array (Entity._components o ++ [c])),
         with_entities
           (alter (Entity.set_dirty (Bool true)) this
              (alter (λ o, Entity.set_components (Entity._components o ++ [c]) o) this
                 (entity_store w))) w)
    end.
Proof.
  intros Ho Hv Hc. unfold _addComponent.
  erewrite bind_normal by (apply Component_getType_run, Hc).
  erewrite bind_normal by (eapply hasComponent_run; eassumption).
  destruct (find_type w (Component._type item) (Entity._components o)) as [c'|].
  - rewrite bool_decide_eq_true_2 by eauto.
    unfold getUUID. repeat js_step. reflexivity.
  - rewrite bool_decide_eq_false_2 by (intros [? ?]; discriminate).
    unfold push_component, getComponents. repeat js_step. reflexivity.
Qed.

Lemma _removeComponent_run w this o type :
  entity_store w !! this = Some o →
  Forall (λ c, c < length (component_store w)) (Entity._components o) →
  _removeComponent this type w =
    match indexOf (Entity._components o) (find_type w type (Entity._components o)) with
    | None =>
        (Normal (Prim Null),
         with_console (console w ++
           [warn [Str "Component with id "; Str type; Str "doesn't exist!"]]) w)
    | Some index =>
        (Normal (Component_array (delete index (Entity._components o))),
         with_entities
           (alter (Entity.set_dirty (Bool true)) this
              (alter (λ o, Entity.set_components (delete index (Entity._components o)) o)
                 this (entity_store w))) w)
    end.
Proof.
  intros Ho Hv. unfold _removeComponent.
  erewrite bind_normal by (eapply getComponent_run; eassumption).
  unfold getComponents. repeat js_step.
  destruct (indexOf _ _) as [i|].
  - repeat js_step. reflexivity.
  - repeat js_step. reflexivity.
Qed.

(** ** Reading backwards from a result *)

Lemma get_entity_inv w e o w1 :
  get_entity e w = (Normal o, w1) → entity_store w !! e = Some o ∧ w1 = w.
Proof.
  unfold get_entity. destruct (entity_store w !! e); intros [= <- <-]; auto.
Qed.

Lemma get_component_inv w c item w1 :
  get_component c w = (Normal item, w1) → component_store w !! c = Some item ∧ w1 = w.
Proof.
  unfold get_component. destruct (component_store w !! c); intros [= <- <-]; auto.
Qed.

Lemma Array_find_world target cs prop w r w' :
  Array_find target cs prop w = (r, w') → w' = w.
Proof.
  induction cs as [|c cs IH]; cbn [Array_find].
  - intros [= _ <-]. reflexivity.
  - rewrite bind_eq. unfold get_component.
    destruct (component_store w !! c) as [item|]; [|intros [= _ <-]; reflexivity].
    destruct (value_is _ _); [intros [= _ <-]; reflexivity | exact IH].
Qed.

Lemma hasComponent_inv w this type b w' :
  hasComponent this type w = (Normal b, w') →
  w' = w ∧
  ∃ o found, entity_store w !! this = Some o ∧
    Array_find (Str type) (Entity._components o) Component.key_type w = (Normal found, w) ∧
    b = bool_decide (is_Some found).
Proof.
  unfold hasComponent, hasItem. intros H.
  apply bind_inv in H as (o & w1 & Ho & H). apply get_entity_inv in Ho as [Ho ->].
  apply bind_inv in H as (found & w2 & Hf & H).
  pose proof (Array_find_world _ _ _ _ _ _ Hf) as ->.
  destruct found; rewrite ret_eq in H; injection H as <- <-;
    (split; [reflexivity | eauto 6]).
Qed.

(** When no Component has the type, the loop of [setComponentData] runs to
    its end. *)
Lemma setComponentData_loop_absent this type data cs w :
  Array_find (Str type) cs Component.key_type w = (Normal None, w) →
  setComponentData_loop this cs type data w =
    (Normal (Prim Null),
     with_console (console w ++
       [warn [Str "Component with type "; Str type; Str " doesn't exist!"]]) w).
Proof.
  induction cs as [|c cs IH]; cbn [Array_find setComponentData_loop]; intros H.
  - repeat js_step. reflexivity.
  - apply bind_inv in H as (item & w1 & Hi & H).
    apply get_component_inv in Hi as [Hi ->].
    rewrite value_is_type in H.
    erewrite bind_normal by (apply Component_getType_run, Hi).
    case_bool_decide as Ht; [discriminate|].
    apply String.eqb_neq in Ht. rewrite Ht. apply IH, H.
Qed.

(** ** Operations that fail *)

(** C9. Each failing operation completes without raising, returns the null
    sentinel and leaves the stores of entities and Components as they
    were, the warning on the console being all that it adds: adding a
    Component whose type the entity already has, removing a type it does
    not have, getting the data of a type it does not have, and setting the
    data of a type it does not have. *)
Theorem failing_operations_return_null (w : World) (this : loc) (type : string) :
  (∀ component,
     Component_getType component w = (Normal type, w) →
     hasComponent this type w = (Normal true, w) →
     ∃ line, _addComponent this component w
             = (Normal (Prim Null), with_console (console w ++ [line]) w)) ∧
  (hasComponent this type w = (Normal false, w) →
     (∃ line, _removeComponent this type w
              = (Normal (Prim Null), with_console (console w ++ [line]) w)) ∧
     (∃ line, getData this type w
              = (Normal (Prim Null), with_console (console w ++ [line]) w)) ∧
     (∀ data, ∃ line, setComponentData this type data w
              = (Normal (Prim Null), with_console (console w ++ [line]) w))) ∧
  (∀ lines, entity_store (with_console lines w) = entity_store w ∧
            component_store (with_console lines w) = component_store w).
Proof.
  split; [|split; [|split; reflexivity]].
  - intros component Ht Hh.
    pose proof (hasComponent_inv _ _ _ _ _ Hh) as (_ & o & found & Ho & _ & _).
    unfold _addComponent.
    erewrite bind_normal by exact Ht. erewrite bind_normal by exact Hh.
    unfold getUUID. repeat js_step. eexists. reflexivity.
  - intros Hh.
    pose proof (hasComponent_inv _ _ _ _ _ Hh) as (_ & o & found & Ho & Hf & Hb).
    destruct found as [c|]; [rewrite bool_decide_eq_true_2 in Hb by eauto; discriminate|].
    assert (Hg : getComponent this type w = (Normal None, w)).
    { unfold getComponent, getItem. js_step. exact Hf. }
    split; [|split].
    + unfold _removeComponent. erewrite bind_normal by exact Hg.
      unfold getComponents. repeat js_step. eexists. reflexivity.
    + unfold getData. erewrite bind_normal by exact Hg.
      repeat js_step. eexists. reflexivity.
    + intros data. unfold setComponentData, getComponents. repeat js_step.
      eexists. apply setComponentData_loop_absent, Hf.
Qed.

Lemma failing_operations_return_null_witness :
  (∃ line, _addComponent 0 0 scene
           = (Normal (Prim Null), with_console (console scene ++ [line]) scene)) ∧
  (∃ line, _removeComponent 0 "armor" scene
           = (Normal (Prim Null), with_console (console scene ++ [line]) scene)) ∧
  (∃ line, getData 0 "armor" scene
           = (Normal (Prim Null), with_console (console scene ++ [line]) scene)) ∧
  (∃ line, setComponentData 0 "armor" ∅ scene
           = (Normal (Prim Null), with_console (console scene ++ [line]) scene)).
Proof.
  split.
  - exact (proj1 (failing_operations_return_null scene 0 "position") 0 eq_refl eq_refl).
  - pose proof (proj1 (proj2 (failing_operations_return_null scene 0 "armor")) eq_refl)
      as (Hr & Hg & Hs).
    exact (conj Hr (conj Hg (Hs ∅))).
Defined.

(** ** One Component per type *)

Lemma NoDup_fmap_count {A B} `{EqDecision B} (f : A → B) (y : B) (l : list A) :
  NoDup (f <$> l) → length (filter (λ x, f x = y) l) ≤ 1.
Proof.
  induction l as [|a l IH]; [cbn; lia|].
  rewrite fmap_cons. intros Hnd. apply NoDup_cons in Hnd as [Ha Hnd].
  rewrite filter_cons. destruct (decide (f a = y)) as [<-|]; [|auto].
  destruct (filter (λ x, f x = f a) l) as [|x xs] eqn:E; [cbn; lia|].
  exfalso. assert (Hx : x ∈ filter (λ x, f x = f a) l) by (rewrite E; left).
  apply list_elem_of_filter in Hx as [Hfx Hx].
  apply Ha. rewrite <- Hfx. apply list_elem_of_fmap_2, Hx.
Qed.

Lemma unique_types_count w e T : unique_types w e → count_type w e T ≤ 1.
Proof. intros [_ Hnd]. apply NoDup_fmap_count, Hnd. Qed.

Lemma unique_types_same_stores w w' e :
  entity_store w' = entity_store w →
  component_store w' = component_store w →
  unique_types w e → unique_types w' e.
Proof.
  unfold unique_types, valid, components_of, type_at. intros -> ->. tauto.
Qed.

(** Allocating a Component changes no Component an entity holds. *)
Lemma unique_types_alloc w e item :
  unique_types w e →
  unique_types (with_components (component_store w ++ [item]) w) e.
Proof.
  intros [[Ha Hv] Hnd]. unfold unique_types, valid, components_of in *. js_simpl.
  split; [split; [exact Ha|]|].
  - eapply Forall_impl; [exact Hv|]. intros c Hc. cbn beta in *.
    rewrite length_app, length_cons, length_nil. lia.
  - erewrite <- (proj1 (Forall_fmap_ext _ _ _)); [exact Hnd|].
    eapply Forall_impl; [exact Hv|]. intros c Hc. unfold type_at. js_simpl.
    rewrite lookup_app_l by exact Hc. reflexivity.
Qed.

Lemma Component_getType_dangling w c :
  component_store w !! c = None → Component_getType c w = (Throw (BadRef c), w).
Proof.
  intros H. unfold Component_getType. rewrite bind_eq. unfold get_component.
  rewrite H. reflexivity.
Qed.

Lemma _addComponent_unique w this component :
  unique_types w this → unique_types (_addComponent this component w).2 this.
Proof.
  intros Hu. pose proof Hu as [Hv Hnd].
  apply valid_lookup in Hv as (o & Ho & Hv).
  rewrite (components_of_lookup _ _ _ Ho) in Hnd.
  destruct (component_store w !! component) as [item|] eqn:Hc.
  - rewrite (_addComponent_run _ _ _ _ _ Ho Hv Hc).
    destruct (find_type w (Component._type item) (Entity._components o)) eqn:Hf.
    + apply (unique_types_same_stores w); [reflexivity..|exact Hu].
    + apply find_type_None in Hf.
      unfold unique_types, valid, components_of. js_simpl.
      change (type_at (with_entities _ w)) with (type_at w).
      rewrite !list_lookup_alter_eq, Ho. cbn.
      split; [split; [eauto|]|].
      * apply Forall_app. split; [exact Hv|].
        apply Forall_singleton. apply lookup_lt_is_Some_1. eauto.
      * rewrite fmap_app. apply NoDup_app. split; [exact Hnd|]. split.
        -- intros x Hx Hx'. cbn in Hx'. apply list_elem_of_singleton in Hx' as ->.
           rewrite (type_at_Some _ _ _ Hc) in Hx. exact (Hf Hx).
        -- apply NoDup_singleton.
  - unfold _addComponent.
    erewrite bind_throw by (apply Component_getType_dangling, Hc). exact Hu.
Qed.

Lemma _removeComponent_unique w this type :
  unique_types w this → unique_types (_removeComponent this type w).2 this.
Proof.
  intros Hu. pose proof Hu as [Hv Hnd].
  apply valid_lookup in Hv as (o & Ho & Hv).
  rewrite (components_of_lookup _ _ _ Ho) in Hnd.
  rewrite (_removeComponent_run _ _ _ _ Ho Hv).
  destruct (indexOf _ _) as [i|].
  - unfold unique_types, valid, components_of. js_simpl.
    change (type_at (with_entities _ w)) with (type_at w).
    rewrite !list_lookup_alter_eq, Ho. cbn.
    split; [split; [eauto|]|].
    + apply Forall_delete, Hv.
    + rewrite list_fmap_delete. eapply sublist_NoDup; [exact Hnd | apply sublist_delete].
  - apply (unique_types_same_stores w); [reflexivity..|exact Hu].
Qed.

Lemma after_calls_unique this calls : ∀ w,
  forallb is_add_or_remove calls = true →
  unique_types w this → unique_types (after_calls this calls w) this.
Proof.
  induction calls as [|c calls IH]; intros w Hc Hu; [exact Hu|].
  cbn in Hc. apply andb_prop in Hc as [Hc Hcs].
  cbn. apply IH; [exact Hcs|].
  destruct c; try discriminate; cbn [invoke].
  - apply _addComponent_unique, Hu.
  - apply _removeComponent_unique, Hu.
Qed.

(** ** Construction *)

Lemma alter_fixed {A} (f : A → A) (l : list A) i x :
  l !! i = Some x → f x = x → alter f i l = l.
Proof.
  intros Hl Hf. apply list_eq. intros j. rewrite list_lookup_alter.
  case_decide; [subst j; rewrite Hl; cbn; congruence | reflexivity].
Qed.

Lemma alter_snoc {A} (f : A → A) (l : list A) x :
  alter f (length l) (l ++ [x]) = l ++ [f x].
Proof. rewrite alter_app_r_alt by lia. rewrite Nat.sub_diag. reflexivity. Qed.

Lemma unique_types_same_components w w' e o o' :
  entity_store w !! e = Some o →
  entity_store w' !! e = Some o' →
  Entity._components o' = Entity._components o →
  component_store w' = component_store w →
  unique_types w e → unique_types w' e.
Proof.
  intros Ho Ho' Hc Hs. unfold unique_types, valid, components_of, type_at.
  rewrite Ho, Ho', Hs. cbn. rewrite Hc. intros [[_ ?] ?]. eauto.
Qed.

(** The [forEach] of the constructor: every entry becomes a Component, and
    the entity takes those whose type it does not have yet. *)
Lemma constructor_forEach this comps : ∀ w o,
  entity_store w !! this = Some o →
  unique_types w this →
  ∃ w' cs d,
    forEach comps (λ data,
      component ← new_Component data;
      _addComponent this component;;
      mret ()) w = (Normal (), w') ∧
    entity_store w' =
      alter (λ o, Entity.set_dirty d (Entity.set_components cs o)) this (entity_store w) ∧
    unique_types w' this ∧
    drawn w' = drawn w ∧ uuid_v4 w' = uuid_v4 w.
Proof.
  induction comps as [|data comps IH]; intros w o Ho Hu.
  - exists w, (Entity._components o), (Entity._dirty o).
    cbn [forEach]. rewrite ret_eq.
    split; [reflexivity|]. split; [|split; [exact Hu | split; reflexivity]].
    symmetry. eapply alter_fixed; [exact Ho | destruct o; reflexivity].
  - set (item := {| Component._type := Config.ctype data;
                    Component._data := Config.cdata data |}).
    set (w1 := with_components (component_store w ++ [item]) w).
    assert (Hu1 : unique_types w1 this) by apply unique_types_alloc, Hu.
    assert (Ho1 : entity_store w1 !! this = Some o) by exact Ho.
    assert (Hc1 : component_store w1 !! length (component_store w) = Some item)
      by (apply list_lookup_middle; reflexivity).
    pose proof Hu1 as [Hv1 _]. apply valid_lookup in Hv1 as (o' & Ho' & Hv1).
    rewrite Ho1 in Ho'. injection Ho' as <-.
    pose proof (_addComponent_unique w1 this (length (component_store w)) Hu1) as Hu2.
    pose proof (_addComponent_run _ _ _ _ _ Ho1 Hv1 Hc1) as Hadd.
    assert (Hhead : ∀ v w2,
      _addComponent this (length (component_store w)) w1 = (Normal v, w2) →
      ∀ w', forEach comps (λ data,
              component ← new_Component data;
              _addComponent this component;;
              mret ()) w2 = (Normal (), w') →
            forEach (data :: comps) (λ data,
              component ← new_Component data;
              _addComponent this component;;
              mret ()) w = (Normal (), w')).
    { intros v w2 Hv w' Hrun. cbn [forEach]. rewrite !bind_assoc.
      erewrite bind_normal by reflexivity. rewrite bind_assoc.
      erewrite bind_normal by exact Hv. rewrite bind_eq, ret_eq. exact Hrun. }
    rewrite Hadd in Hu2.
    destruct (find_type w1 (Component._type item) (Entity._components o)).
    + cbn [fst snd] in Hu2.
      match type of Hu2 with unique_types ?w2 _ =>
        destruct (IH w2 o Ho1 Hu2) as (w' & cs & d & Hrun & Hes & Hu' & Hd & Hg)
      end.
      exists w', cs, d. split; [exact (Hhead _ _ Hadd _ Hrun) | auto].
    + cbn [fst snd] in Hu2.
      match type of Hu2 with unique_types ?x _ => set (w2 := x) in * end.
      assert (Ho2 : entity_store w2 !! this
                    = Some (Entity.set_dirty (Bool true)
                              (Entity.set_components
                                 (Entity._components o ++ [length (component_store w)]) o))).
      { subst w2. js_simpl. rewrite !list_lookup_alter_eq, Ho1. reflexivity. }
      destruct (IH _ _ Ho2 Hu2) as (w' & cs & d & Hrun & Hes & Hu' & Hd & Hg).
      exists w', cs, d.
      split; [exact (Hhead _ _ Hadd _ Hrun)|].
      split; [|split; [exact Hu' | split; assumption]].
      rewrite Hes. subst w2 w1. js_simpl. rewrite !list_alter_alter_eq.
      apply list_alter_ext; [reflexivity..].
Qed.

Lemma new_Entity_fresh C w :
  new_Entity C None w =
    (Normal (length (entity_store w)),
     with_entities
       (entity_store w ++
          [{| Entity.class := C; Entity._uuid := Str (uuid_v4 w (drawn w));
              Entity._type := Str "untyped"; Entity._name := Str "No Name";
              Entity._components := []; Entity._tasks := [];
              Entity.tasksDirty := Undefined; Entity._dirty := Bool false |}])
       (with_drawn (S (drawn w)) w)).
Proof.
  unfold new_Entity, constructor.
  erewrite bind_normal by reflexivity.
  rewrite !bind_assoc. erewrite bind_normal by reflexivity.
  repeat js_step. rewrite !alter_snoc. reflexivity.
Qed.

Lemma new_Entity_from_config C config comps w :
  Config.components config = Some comps →
  ∃ w' cs,
    new_Entity C (Some config) w = (Normal (length (entity_store w)), w') ∧
    entity_store w' = entity_store w ++
      [{| Entity.class := C;
          Entity._uuid := if truthy (Config.uuid config) then Config.uuid config
                          else Str (uuid_v4 w (drawn w));
          Entity._type := or_else (Config.type config) (Str "no-type");
          Entity._name := or_else (Config.name config) (Str "No Name");
          Entity._components := cs;
          Entity._tasks := default [] (Config.tasks config);
          Entity.tasksDirty := Bool false;
          Entity._dirty := Bool false |}] ∧
    unique_types w' (length (entity_store w)) ∧
    drawn w' = (if truthy (Config.uuid config) then drawn w else S (drawn w)).
Proof.
  intros Hcomps. unfold new_Entity, constructor. rewrite Hcomps.
  erewrite bind_normal by reflexivity.
  rewrite !bind_assoc.
  set (this := length (entity_store w)).
  assert (Hloop : ∀ w0 uuid,
    entity_store w0 = entity_store w →
    component_store w0 = component_store w →
    ∃ w' cs,
      ((assign this (Entity.set_uuid uuid) ≫= λ _,
        assign this (Entity.set_type (or_else (Config.type config) (Str "no-type"))) ≫= λ _,
        assign this (Entity.set_name (or_else (Config.name config) (Str "No Name"))) ≫= λ _,
        assign this (Entity.set_components []) ≫= λ _,
        forEach comps (λ data,
          component ← new_Component data;
          _addComponent this component;;
          mret ()) ≫= λ _,
        assign this (Entity.set_tasks (default [] (Config.tasks config))) ≫= λ _,
        assign this (Entity.set_tasksDirty (Bool false))) ≫= λ _,
       assign this (Entity.set_dirty (Bool false)) ≫= λ _,
       mret this)
        (with_entities (entity_store w0 ++ [Entity.blank C]) w0)
      = (Normal this, w') ∧
      entity_store w' = entity_store w ++
        [{| Entity.class := C; Entity._uuid := uuid;
            Entity._type := or_else (Config.type config) (Str "no-type");
            Entity._name := or_else (Config.name config) (Str "No Name");
            Entity._components := cs;
            Entity._tasks := default [] (Config.tasks config);
            Entity.tasksDirty := Bool false;
            Entity._dirty := Bool false |}] ∧
      unique_types w' this ∧ drawn w' = drawn w0).
  { intros w0 uuid Hes Hcs.
    set (o1 := Entity.set_components []
                 (Entity.set_name (or_else (Config.name config) (Str "No Name"))
                    (Entity.set_type (or_else (Config.type config) (Str "no-type"))
                       (Entity.set_uuid uuid (Entity.blank C))))).
    set (w1 := with_entities (entity_store w ++ [o1]) w0).
    assert (Ho1 : entity_store w1 !! this = Some o1)
      by (apply list_lookup_middle; reflexivity).
    assert (Hu1 : unique_types w1 this).
    { unfold unique_types, valid, components_of. rewrite Ho1. cbn.
      split; [split; [eauto | constructor] | constructor]. }
    destruct (constructor_forEach this comps w1 o1 Ho1 Hu1)
      as (w2 & cs & d & Hrun & Hes2 & Hu2 & Hd2 & _).
    assert (Ho2 : entity_store w2 !! this
                  = Some (Entity.set_dirty d (Entity.set_components cs o1))).
    { rewrite Hes2, list_lookup_alter_eq, Ho1. reflexivity. }
    eexists _, cs. split; [|split; [|split]].
    - rewrite Hes.
      assert (Hb : (entity_store w ++ [Entity.blank C]) !! this = Some (Entity.blank C))
        by (apply list_lookup_middle; reflexivity).
      repeat js_step. subst this. rewrite !alter_snoc.
      erewrite bind_normal by exact Hrun.
      repeat js_step. reflexivity.
    - js_simpl. rewrite Hes2. subst w1. js_simpl. subst this.
      rewrite !alter_snoc. reflexivity.
    - eapply (unique_types_same_components w2); [exact Ho2 | | | | exact Hu2].
      + subst this. js_simpl. rewrite !list_lookup_alter_eq, Ho2. reflexivity.
      + reflexivity.
      + reflexivity.
    - exact Hd2. }
  destruct (truthy (Config.uuid config)).
  - destruct (Hloop w (Config.uuid config) eq_refl eq_refl)
      as (w' & cs & Hrun & Hes & Hu & Hd).
    exists w', cs. split; [|auto]. rewrite bind_eq, ret_eq. exact Hrun.
  - destruct (Hloop (with_drawn (S (drawn w)) w) (Str (uuid_v4 w (drawn w))) eq_refl eq_refl)
      as (w' & cs & Hrun & Hes & Hu & Hd).
    exists w', cs. split; [|auto]. erewrite bind_normal by reflexivity. exact Hrun.
Qed.

(** C2. A configuration record without [components] does not construct:
    whatever its other fields, [new Entity( config )] throws a TypeError at
    [config.components.forEach], and the object it was filling is left with
    [tasksDirty] and [dirty] unassigned.  With [components] present and
    every other field absent it does construct, with the sentinel type
    and name, a generated identifier and no tasks. *)
Theorem constructor_throws_without_components (C : string) (w : World)
    (uuid type name : prim) (tasks : option (list object))
    (comps : list Config.component) :
  (∃ w',
     new_Entity C (Some {| Config.uuid := uuid; Config.type := type; Config.name := name;
                           Config.components := None; Config.tasks := tasks |}) w
       = (Throw (TypeError "Cannot read property 'forEach' of undefined"), w') ∧
     Entity._dirty <$> entity_store w' !! length (entity_store w) = Some Undefined ∧
     Entity.tasksDirty <$> entity_store w' !! length (entity_store w) = Some Undefined) ∧
  (∃ w' cs,
     new_Entity C (Some {| Config.uuid := Undefined; Config.type := Undefined;
                           Config.name := Undefined;
                           Config.components := Some comps; Config.tasks := None |}) w
       = (Normal (length (entity_store w)), w') ∧
     entity_store w' !! length (entity_store w)
       = Some {| Entity.class := C; Entity._uuid := Str (uuid_v4 w (drawn w));
                 Entity._type := Str "no-type"; Entity._name := Str "No Name";
                 Entity._components := cs; Entity._tasks := [];
                 Entity.tasksDirty := Bool false; Entity._dirty := Bool false |}).
Proof.
  split; [apply new_Entity_without_components|].
  destruct (new_Entity_from_config C
              {| Config.uuid := Undefined; Config.type := Undefined;
                 Config.name := Undefined;
                 Config.components := Some comps; Config.tasks := None |}
              comps w eq_refl) as (w' & cs & Hrun & Hes & _).
  exists w', cs. split; [exact Hrun|].
  rewrite Hes. apply list_lookup_middle. reflexivity.
Qed.

Lemma new_Entity_unique C config w e w1 :
  new_Entity C config w = (Normal e, w1) →
  e = length (entity_store w) ∧ unique_types w1 e ∧
  Entity._dirty <$> entity_store w1 !! e = Some (Bool false).
Proof.
  destruct config as [config|].
  - destruct (Config.components config) as [comps|] eqn:Hc.
    + destruct (new_Entity_from_config C config comps w Hc)
        as (w' & cs & -> & Hes & Hu & _).
      intros [= <- <-]. split; [reflexivity|]. split; [exact Hu|].
      rewrite Hes, list_lookup_middle by reflexivity. reflexivity.
    + destruct config as [u t n cs ts]. cbn in Hc. subst cs.
      destruct (new_Entity_without_components C w u t n ts) as (w' & -> & _).
      discriminate.
  - rewrite new_Entity_fresh. intros [= <- <-]. split; [reflexivity|]. split.
    + unfold unique_types, valid, components_of. js_simpl.
      rewrite list_lookup_middle by reflexivity. cbn.
      split; [split; [eauto | constructor] | constructor].
    + js_simpl. rewrite list_lookup_middle by reflexivity. reflexivity.
Qed.

(** C4. An Entity holds at most one Component of any type [T]: this is so
    when [new Entity( config )] returns, the adds of the constructor
    included, and stays so after any series of [_addComponent] and
    [_removeComponent] calls on it. *)
Theorem component_types_unique (C : string) (config : option Config.t) (w : World)
    (e : loc) (w1 : World) (calls : list call) (T : string) :
  new_Entity C config w = (Normal e, w1) →
  forallb is_add_or_remove calls = true →
  count_type (after_calls e calls w1) e T ≤ 1.
Proof.
  intros Hnew Hcalls. apply unique_types_count, after_calls_unique; [exact Hcalls|].
  apply (new_Entity_unique _ _ _ _ _ Hnew).
Qed.

Lemma component_types_unique_witness :
  count_type
    (after_calls 0 [call_addComponent 0; call_removeComponent "health";
                    call_addComponent 1; call_addComponent 1] scene)
    0 "health" ≤ 1.
Proof.
  exact (component_types_unique "Entity" (Some tank_config) empty_world 0 scene
           [call_addComponent 0; call_removeComponent "health";
            call_addComponent 1; call_addComponent 1] "health" eq_refl eq_refl).
Defined.

Lemma truthy_absent_if_falsy p : truthy (absent_if_falsy p) = truthy p.
Proof. unfold absent_if_falsy. destruct (truthy p) eqn:E; [exact E | reflexivity]. Qed.

Lemma or_else_absent_if_falsy p d : or_else (absent_if_falsy p) d = or_else p d.
Proof.
  unfold or_else. rewrite truthy_absent_if_falsy.
  unfold absent_if_falsy. destruct (truthy p); reflexivity.
Qed.

(** C10. A falsy [type] or [name] in the configuration record (the empty
    string among them) gives the entity the sentinel "no-type" or
    "No Name", and a falsy [uuid] a newly generated identifier; the world
    after construction is the one the record without those fields gives. *)
Theorem falsy_fields_take_defaults (C : string) (config : Config.t)
    (comps : list Config.component) (w : World) :
  Config.components config = Some comps →
  (∃ w' o,
     new_Entity C (Some config) w = (Normal (length (entity_store w)), w') ∧
     entity_store w' !! length (entity_store w) = Some o ∧
     (truthy (Config.type config) = false → Entity._type o = Str "no-type") ∧
     (truthy (Config.name config) = false → Entity._name o = Str "No Name") ∧
     (truthy (Config.uuid config) = false →
        Entity._uuid o = Str (uuid_v4 w (drawn w)) ∧ drawn w' = S (drawn w))) ∧
  new_Entity C (Some config) w = new_Entity C (Some (without_falsy config)) w.
Proof.
  intros Hc. split.
  - destruct (new_Entity_from_config C config comps w Hc)
      as (w' & cs & Hrun & Hes & _ & Hd).
    eexists w', _. split; [exact Hrun|]. split.
    { rewrite Hes. apply list_lookup_middle. reflexivity. }
    cbn. unfold or_else. split; [|split].
    + intros ->. reflexivity.
    + intros ->. reflexivity.
    + intros Hu. rewrite Hu in *. auto.
  - unfold new_Entity, constructor, without_falsy.
    cbn [Config.uuid Config.type Config.name Config.components Config.tasks].
    rewrite !or_else_absent_if_falsy, truthy_absent_if_falsy.
    unfold absent_if_falsy. destruct (truthy (Config.uuid config)); reflexivity.
Qed.

Lemma falsy_fields_take_defaults_witness :
  (∃ w' o,
     new_Entity "Entity" (Some nameless_config) scene = (Normal 1, w') ∧
     entity_store w' !! 1 = Some o ∧
     Entity._type o = Str "no-type" ∧
     Entity._name o = Str "No Name" ∧
     Entity._uuid o = Str "uuid-0" ∧ drawn w' = 1) ∧
  new_Entity "Entity" (Some nameless_config) scene
  = new_Entity "Entity" (Some (without_falsy nameless_config)) scene.
Proof.
  destruct (falsy_fields_take_defaults "Entity" nameless_config [position; position]
              scene eq_refl) as [(w' & o & Hrun & Ho & Ht & Hn & Hu) Heq].
  split; [|exact Heq].
  exists w', o. split; [exact Hrun|]. split; [exact Ho|].
  split; [exact (Ht eq_refl)|]. split; [exact (Hn eq_refl)|]. exact (Hu eq_refl).
Defined.

(** ** The dirty flag *)

Section keeps_dirty.
Context (P : loc → Prop).

Lemma keeps_dirty_same_store {A} (m : Js A) :
  (∀ w, entity_store (m w).2 = entity_store w) → keeps_dirty P m.
Proof. intros H w x _. unfold dirty_at. rewrite H. auto. Qed.

Lemma keeps_dirty_ret {A} (a : A) : keeps_dirty P (mret a).
Proof. apply keeps_dirty_same_store. reflexivity. Qed.

Lemma keeps_dirty_bind {A B} (m : Js A) (f : A → Js B) :
  keeps_dirty P m → (∀ a, keeps_dirty P (f a)) → keeps_dirty P (m ≫= f).
Proof.
  intros Hm Hf w x Hx Hd. rewrite bind_eq.
  specialize (Hm w x Hx Hd). destruct (m w) as [[a|e] w1]; [|exact Hm].
  apply Hf; assumption.
Qed.

Lemma keeps_dirty_fmap {A B} (g : A → B) (m : Js A) :
  keeps_dirty P m → keeps_dirty P (g <$> m).
Proof. intros Hm. apply keeps_dirty_bind; [exact Hm | intros; apply keeps_dirty_ret]. Qed.

Lemma keeps_dirty_throw {A} e : keeps_dirty P (throw e : Js A).
Proof. apply keeps_dirty_same_store. reflexivity. Qed.

Lemma keeps_dirty_get_entity e : keeps_dirty P (get_entity e).
Proof.
  apply keeps_dirty_same_store. intros w. unfold get_entity.
  destruct (entity_store w !! e); reflexivity.
Qed.

Lemma keeps_dirty_get_component c : keeps_dirty P (get_component c).
Proof.
  apply keeps_dirty_same_store. intros w. unfold get_component.
  destruct (component_store w !! c); reflexivity.
Qed.

Lemma keeps_dirty_put_component c o : keeps_dirty P (put_component c o).
Proof.
  apply keeps_dirty_same_store. intros w. unfold put_component.
  destruct (component_store w !! c); reflexivity.
Qed.

Lemma keeps_dirty_alloc_component o : keeps_dirty P (alloc_component o).
Proof. apply keeps_dirty_same_store. reflexivity. Qed.

Lemma keeps_dirty_UUID : keeps_dirty P UUID.
Proof. apply keeps_dirty_same_store. reflexivity. Qed.

Lemma keeps_dirty_console_warn pieces : keeps_dirty P (console_warn pieces).
Proof. apply keeps_dirty_same_store. reflexivity. Qed.

Lemma keeps_dirty_console_info m : keeps_dirty P (console_info m).
Proof. apply keeps_dirty_same_store. reflexivity. Qed.

Lemma keeps_dirty_alloc_entity o : keeps_dirty P (alloc_entity o).
Proof.
  intros w x _. unfold dirty_at, alloc_entity. js_simpl.
  intros Hd. rewrite lookup_app_l; [exact Hd|].
  apply lookup_lt_is_Some. destruct (entity_store w !! x); [eauto | discriminate].
Qed.

(** An assignment that leaves a true dirty flag true, or is made to an
    entity outside [P]. *)
Lemma keeps_dirty_assign e f :
  (P e → ∀ o, Entity._dirty o = Bool true → Entity._dirty (f o) = Bool true) →
  keeps_dirty P (assign e f).
Proof.
  intros Hf w x Hx. unfold dirty_at, assign.
  destruct (entity_store w !! e) as [o|] eqn:Ho; [|auto].
  js_simpl. rewrite list_lookup_alter. case_decide as Hex; [|auto].
  subst x. rewrite Ho. cbn. intros [= Hd]. f_equal. apply Hf; assumption.
Qed.

Lemma keeps_dirty_forEach {A} (array : list A) (f : A → Js unit) :
  (∀ a, keeps_dirty P (f a)) → keeps_dirty P (forEach array f).
Proof.
  intros Hf. induction array as [|a array IH]; cbn [forEach].
  - apply keeps_dirty_ret.
  - apply keeps_dirty_bind; [apply Hf | intros _; exact IH].
Qed.

Lemma keeps_dirty_Array_find target array prop :
  keeps_dirty P (Array_find target array prop).
Proof.
  apply keeps_dirty_same_store. intros w.
  destruct (Array_find target array prop w) as [r w'] eqn:E.
  apply Array_find_world in E as ->. reflexivity.
Qed.

Lemma keeps_dirty_read_components refs : keeps_dirty P (read_components refs).
Proof.
  induction refs as [|ref refs IH]; cbn [read_components].
  - apply keeps_dirty_ret.
  - apply keeps_dirty_bind; [apply keeps_dirty_get_component | intros item].
    apply keeps_dirty_bind; [exact IH | intros; apply keeps_dirty_ret].
Qed.
End keeps_dirty.

Create HintDb keeps_dirty.

#[local] Hint Resolve keeps_dirty_ret keeps_dirty_throw keeps_dirty_get_entity
  keeps_dirty_get_component keeps_dirty_put_component keeps_dirty_alloc_component
  keeps_dirty_UUID keeps_dirty_console_warn keeps_dirty_console_info
  keeps_dirty_alloc_entity keeps_dirty_Array_find keeps_dirty_read_components
  : keeps_dirty.

(** Break a computation down along its binds. *)
Ltac keeps :=
  repeat first
    [ solve [ auto with keeps_dirty ]
    | apply keeps_dirty_bind; [|intros ?]
    | apply keeps_dirty_fmap
    | apply keeps_dirty_forEach; intros ?
    | apply keeps_dirty_assign; intros _ [] ; cbn; solve [ auto | congruence ]
    | match goal with
      | |- keeps_dirty _ (match ?x with _ => _ end) => destruct x
      end ].

Lemma keeps_dirty_hasComponent P this type : keeps_dirty P (hasComponent this type).
Proof. unfold hasComponent, hasItem. keeps. Qed.

Lemma keeps_dirty_getComponent P this type : keeps_dirty P (getComponent this type).
Proof. unfold getComponent, getItem. keeps. Qed.

Lemma keeps_dirty_Component_getType P c : keeps_dirty P (Component_getType c).
Proof. unfold Component_getType. keeps. Qed.

Lemma keeps_dirty__addComponent P this component :
  keeps_dirty P (_addComponent this component).
Proof.
  unfold _addComponent, getUUID, push_component, getComponents.
  pose proof keeps_dirty_hasComponent. pose proof keeps_dirty_Component_getType.
  keeps.
Qed.

Lemma keeps_dirty__removeComponent P this type :
  keeps_dirty P (_removeComponent this type).
Proof.
  unfold _removeComponent, getComponents. pose proof keeps_dirty_getComponent. keeps.
Qed.

Lemma keeps_dirty_setDirty P this dirty :
  (P this → or_default (Bool true) dirty = Bool true) →
  keeps_dirty P (setDirty this dirty).
Proof.
  intros Hd. unfold setDirty, isDirty.
  apply keeps_dirty_bind; [|intros _; keeps].
  apply keeps_dirty_assign. intros Hp o _. exact (Hd Hp).
Qed.

(** The constructor ends with [this._dirty = false]: it keeps the flag of
    every entity but the one it is building. *)
Lemma keeps_dirty_constructor P this config :
  ¬ P this → keeps_dirty P (constructor this config).
Proof.
  intros Hp. unfold constructor, new_Component.
  assert (Ha : ∀ f, keeps_dirty P (assign this f)).
  { intros f. apply keeps_dirty_assign. intros Hp'. destruct (Hp Hp'). }
  pose proof keeps_dirty__addComponent.
  destruct config as [config|].
  - destruct (truthy (Config.uuid config)), (Config.components config); keeps.
  - keeps.
Qed.

Lemma keeps_dirty_new_Entity P C config : keeps_dirty P (new_Entity C config).
Proof.
  intros w x Hx Hd. unfold new_Entity. erewrite bind_normal by reflexivity.
  apply (keeps_dirty_constructor (λ y, y ≠ length (entity_store w))).
  - intros Hne. apply Hne. reflexivity.
  - intros ->. unfold dirty_at in Hd.
    rewrite (lookup_ge_None_2 (entity_store w) (length (entity_store w))) in Hd by lia.
    discriminate.
  - apply (keeps_dirty_alloc_entity P (Entity.blank C) w x Hx Hd).
Qed.

Lemma keeps_dirty_copy P this source : keeps_dirty P (copy this source).
Proof.
  unfold copy, getType, getName, getComponents, push_component, Component_clone. keeps.
Qed.

Lemma keeps_dirty_clone P this : keeps_dirty P (clone this).
Proof.
  unfold clone. pose proof keeps_dirty_new_Entity. pose proof keeps_dirty_copy. keeps.
Qed.

Lemma keeps_dirty_setComponentData_loop P this components type data :
  keeps_dirty P (setComponentData_loop this components type data).
Proof.
  induction components as [|c cs IH]; cbn [setComponentData_loop].
  - keeps.
  - unfold Component_getType, Component_apply.
    apply keeps_dirty_bind; [keeps | intros t].
    destruct (String.eqb t type); [|exact IH].
    apply keeps_dirty_bind; [keeps | intros _].
    apply keeps_dirty_bind; [|intros _; keeps].
    apply keeps_dirty_setDirty. reflexivity.
Qed.

Lemma keeps_dirty_getComponentList P this : keeps_dirty P (getComponentList this).
Proof.
  unfold getComponentList. apply keeps_dirty_bind; [keeps | intros o].
  induction (Entity._components o) as [|c cs IH]; cbn [foldr]; [keeps|].
  unfold Component_getType. apply keeps_dirty_bind; [keeps | intros t].
  apply keeps_dirty_bind; [exact IH | intros; keeps].
Qed.

(** Every call but a [setDirty] whose argument is neither true nor left
    to the default keeps the dirty flag of every entity. *)
Lemma keeps_dirty_invoke this c :
  (∀ d, c = call_setDirty d → or_default (Bool true) d = Bool true) →
  keeps_dirty (λ _, True) (invoke this c).
Proof.
  intros Hc.
  pose proof keeps_dirty__addComponent. pose proof keeps_dirty__removeComponent.
  pose proof keeps_dirty_clone. pose proof keeps_dirty_copy.
  pose proof keeps_dirty_getComponent. pose proof keeps_dirty_hasComponent.
  pose proof keeps_dirty_getComponentList. pose proof keeps_dirty_setComponentData_loop.
  assert (Hs : ∀ d, or_default (Bool true) d = Bool true →
                    keeps_dirty (λ _, True) (setDirty this d))
    by (intros; apply keeps_dirty_setDirty; auto).
  pose proof (Hs None eq_refl).
  destruct c; cbn [invoke];
    unfold getData, getComponents, getCurrentTask, getName, getTasks, getType, getUUID,
      isDirty, print, setComponentData, setTasks, appendTasks, insertTasks, advanceTasks,
      this_tasks, Component_getData, getComponents;
    try solve [keeps].
Qed.

Lemma marks_dirty_bind {A} this (m : Js A) (f : A → Js value) :
  (∀ a, marks_dirty this (f a)) → marks_dirty this (m ≫= f).
Proof.
  intros Hf w v w' H. apply bind_inv in H as (a & w1 & _ & H). exact (Hf a _ _ _ H).
Qed.

Lemma marks_dirty_null this : marks_dirty this (mret (Prim Null)).
Proof. intros w v w' [= <- _] Hv. congruence. Qed.

(** Once [m] has set the flag, a tail that keeps it leaves it set. *)
Lemma marks_dirty_after {A} this (m : Js A) (f : A → Js value) :
  (∀ w a w', m w = (Normal a, w') → dirty_at w' this) →
  (∀ a, keeps_dirty (λ _, True) (f a)) →
  marks_dirty this (m ≫= f).
Proof.
  intros Hm Hf w v w' H _. apply bind_inv in H as (a & w1 & Hm1 & H).
  pose proof (Hf a w1 this I (Hm _ _ _ Hm1)) as Hd. rewrite H in Hd. exact Hd.
Qed.

Lemma assign_inv w e f u w' :
  assign e f w = (Normal u, w') →
  ∃ o, entity_store w !! e = Some o ∧
       w' = with_entities (alter f e (entity_store w)) w.
Proof.
  unfold assign. destruct (entity_store w !! e) as [o|]; intros [= _ <-]; eauto.
Qed.

Lemma assign_dirty this w u w' :
  assign this (Entity.set_dirty (Bool true)) w = (Normal u, w') → dirty_at w' this.
Proof.
  intros H. apply assign_inv in H as (o & Ho & ->).
  unfold dirty_at. js_simpl. rewrite list_lookup_alter_eq, Ho. reflexivity.
Qed.

Lemma setDirty_dirty this w v w' :
  setDirty this None w = (Normal v, w') → dirty_at w' this.
Proof.
  unfold setDirty. intros H. apply bind_inv in H as (u & w1 & Ha & H).
  apply assign_dirty in Ha.
  pose proof (keeps_dirty_get_entity (λ _, True) this w1 this I Ha) as Hd.
  unfold isDirty in H. apply bind_inv in H as (o & w2 & Hg & H).
  rewrite Hg in Hd. rewrite ret_eq in H. injection H as _ <-. exact Hd.
Qed.

Ltac marks :=
  repeat first
    [ apply marks_dirty_null
    | apply marks_dirty_after; [ first [ exact (assign_dirty _) | exact (setDirty_dirty _) ]
                               | intros ?; keeps ]
    | apply marks_dirty_bind; intros ?
    | match goal with
      | |- marks_dirty _ (match ?x with _ => _ end) => destruct x
      | |- marks_dirty _ (if ?x then _ else _) => destruct x
      end ].

Lemma marks_dirty_setComponentData_loop this components type data :
  marks_dirty this (setComponentData_loop this components type data).
Proof.
  induction components as [|c cs IH]; cbn [setComponentData_loop]; [marks|].
  apply marks_dirty_bind. intros t. destruct (String.eqb t type); [marks | exact IH].
Qed.

(** Each mutating call that does not return null leaves [this] dirty. *)
Lemma marks_dirty_invoke this c :
  is_mutation c = true → marks_dirty this (invoke this c).
Proof.
  destruct c; try discriminate; intros _; cbn [invoke].
  - unfold _addComponent, getComponents. marks.
  - unfold _removeComponent, getComponents. marks.
  - unfold copy, getComponents. marks.
  - unfold setComponentData. apply marks_dirty_bind. intros cs.
    apply marks_dirty_setComponentData_loop.
  - unfold setTasks, this_tasks. marks.
  - unfold appendTasks, this_tasks. marks.
  - unfold insertTasks, this_tasks. marks.
  - unfold advanceTasks, this_tasks. marks.
Qed.

(** ** Copying *)

Lemma Component_clone_run w c item :
  component_store w !! c = Some item →
  Component_clone c w =
    (Normal (length (component_store w)),
     with_components (component_store w ++ [item]) w).
Proof.
  intros H. unfold Component_clone. js_step. destruct item. reflexivity.
Qed.

Lemma cells_cons σ c cs item :
  σ !! c = Some item → cells σ (c :: cs) = item :: cells σ cs.
Proof. intros H. unfold cells. cbn. rewrite H. reflexivity. Qed.

Lemma cells_app σ k cs :
  Forall (λ c, c < length σ) cs → cells (σ ++ k) cs = cells σ cs.
Proof.
  induction 1 as [|c cs Hc _ IH]; [reflexivity|].
  unfold cells in *. cbn. rewrite lookup_app_l by exact Hc. rewrite IH. reflexivity.
Qed.

Lemma lookup_cells σ cs i c :
  Forall (λ c, c < length σ) cs →
  cs !! i = Some c → cells σ cs !! i = σ !! c.
Proof.
  intros Hv. revert i. induction Hv as [|c' cs Hc _ IH]; intros i Hi; [discriminate|].
  apply lookup_lt_is_Some_2 in Hc as [item Hitem].
  rewrite (cells_cons _ _ _ _ Hitem).
  destruct i as [|i]; cbn in *; [congruence | auto].
Qed.

(** The [forEach] of [copy]: one new Component per Component of the
    source, in order, each with the type and data of its original. *)
Lemma copy_forEach this cs : ∀ w o,
  entity_store w !! this = Some o →
  Forall (λ c, c < length (component_store w)) cs →
  forEach cs (λ component,
    cloned ← Component_clone component;
    push_component this cloned) w =
  (Normal (),
   {| entity_store :=
        alter (λ o, Entity.set_components
                      (Entity._components o
                         ++ seq (length (component_store w)) (length cs)) o)
              this (entity_store w);
      component_store := component_store w ++ cells (component_store w) cs;
      uuid_v4 := uuid_v4 w; drawn := drawn w; console := console w |}).
Proof.
  induction cs as [|c cs IH]; intros w o Ho Hv.
  - cbn [forEach]. rewrite ret_eq. f_equal.
    destruct w as [es σ g d k]. cbn in *. f_equal.
    + symmetry. eapply alter_fixed; [exact Ho|].
      rewrite app_nil_r. destruct o; reflexivity.
    + rewrite app_nil_r. reflexivity.
  - apply Forall_cons in Hv as [Hc Hv].
    apply lookup_lt_is_Some_2 in Hc as [item Hi].
    set (w2 := with_entities
                 (alter (λ o, Entity.set_components
                                (Entity._components o ++ [length (component_store w)]) o)
                        this (entity_store w))
                 (with_components (component_store w ++ [item]) w)).
    assert (Ho2 : entity_store w2 !! this
                  = Some (Entity.set_components
                            (Entity._components o ++ [length (component_store w)]) o)).
    { subst w2. js_simpl. rewrite list_lookup_alter_eq, Ho. reflexivity. }
    assert (Hv2 : Forall (λ c, c < length (component_store w2)) cs).
    { eapply Forall_impl; [exact Hv|]. intros c' Hc'. subst w2. js_simpl.
      rewrite length_app. cbn beta in *. lia. }
    pose proof (IH w2 _ Ho2 Hv2) as Hrun.
    cbn [forEach]. rewrite bind_assoc.
    erewrite bind_normal by (apply Component_clone_run, Hi).
    unfold push_component at 1. js_step. fold w2.
    unfold push_component in Hrun |- *. rewrite Hrun. f_equal.
    subst w2. js_simpl. f_equal.
    + rewrite list_alter_alter_eq. apply list_alter_ext; [|reflexivity].
      intros x _. cbn. unfold Entity.set_components. cbn. f_equal.
      rewrite length_app, <- app_assoc. cbn. rewrite Nat.add_1_r. reflexivity.
    + rewrite (cells_cons _ _ _ _ Hi), cells_app by exact Hv.
      rewrite <- app_assoc. reflexivity.
Qed.

Lemma world_eq w w' :
  entity_store w = entity_store w' →
  component_store w = component_store w' →
  uuid_v4 w = uuid_v4 w' → drawn w = drawn w' → console w = console w' →
  w = w'.
Proof. destruct w, w'. cbn. intros. subst. reflexivity. Qed.

Lemma alter_to_insert {A} (f : A → A) (l : list A) i x :
  l !! i = Some x → alter f i l = <[i:=f x]> l.
Proof.
  intros H. apply list_eq. intros j.
  rewrite list_lookup_alter, list_lookup_insert.
  repeat case_decide; subst; try rewrite H; try reflexivity.
  - exfalso. apply lookup_lt_Some in H. lia.
  - destruct_and?. lia.
Qed.

(** What [copy] does, with [cs] the Components [source.getComponents()]
    yields once [this._components] has been reset. *)
Lemma copy_run w this source o a :
  entity_store w !! this = Some o →
  entity_store w !! source = Some a →
  Forall (λ c, c < length (component_store w))
         (if decide (this = source) then [] else Entity._components a) →
  copy this source w =
    (Normal (Component_array
               (seq (length (component_store w))
                    (length (if decide (this = source) then []
                             else Entity._components a)))),
     {| entity_store :=
          <[this := {| Entity.class := Entity.class o;
                       Entity._uuid := Entity._uuid o;
                       Entity._type := Entity._type a;
                       Entity._name := Entity._name a;
                       Entity._components :=
                         seq (length (component_store w))
                             (length (if decide (this = source) then []
                                      else Entity._components a));
                       Entity._tasks := Entity._tasks o;
                       Entity.tasksDirty := Entity.tasksDirty o;
                       Entity._dirty := Bool true |}]> (entity_store w);
        component_store :=
          component_store w
            ++ cells (component_store w)
                     (if decide (this = source) then [] else Entity._components a);
        uuid_v4 := uuid_v4 w; drawn := drawn w; console := console w |}).
Proof.
  intros Ho Ha Hv. unfold copy, getType, getName, getComponents.
  destruct (decide (this = source)) as [<-|Hne].
  - rewrite Ho in Ha. injection Ha as <-.
    repeat js_step. cbn [forEach]. repeat js_step. f_equal.
    apply world_eq; js_simpl; try reflexivity.
    + rewrite !list_alter_alter_eq. rewrite (alter_to_insert _ _ _ _ Ho). reflexivity.
    + rewrite app_nil_r. reflexivity.
  - repeat js_step.
    erewrite bind_normal by (eapply copy_forEach; [js_lookup | exact Hv]).
    repeat js_step. f_equal.
    apply world_eq; js_simpl; try reflexivity.
    rewrite !list_alter_alter_eq. rewrite (alter_to_insert _ _ _ _ Ho). reflexivity.
Qed.

Lemma lookup_cloned σ cs i c :
  Forall (λ c, c < length σ) cs →
  cs !! i = Some c →
  (σ ++ cells σ cs) !! (length σ + i) = σ !! c.
Proof.
  intros Hv Hi. rewrite lookup_app_r by lia.
  replace (length σ + i - length σ) with i by lia.
  apply lookup_cells; assumption.
Qed.

(** Copying an entity into itself: [this._components = []] comes before
    [source.getComponents()] is read, so the tank, which had a position
    and a health Component, is left with none. *)
Example copy_into_itself :
  (getComponentList 0 scene).1 = Normal ["position"; "health"] ∧
  (copy 0 0 scene).1 = Normal (Component_array []) ∧
  (getComponentList 0 (copy 0 0 scene).2).1 = Normal [] ∧
  (getComponentList 0 (copy 0 0 scene).2).1 ≠ (getComponentList 0 scene).1.
Proof. repeat split; try reflexivity. discriminate. Qed.

(** C5. For an assembly [source] and a different entity [this],
    [this.copy( source )] completes and leaves [this] with one new
    Component per Component of [source], in the same order and with the
    same type and data, so that the two have the same list of types; the
    new Components are objects that did not exist before the call, so
    none of the Components [this] had is kept; the type and name of
    [this] are those of [source], its dirty flag is true, and [source]
    and its Components are as they were. *)
Theorem copy_replaces_components (w : World) (this source : loc) (o a : Entity.obj) :
  this ≠ source →
  entity_store w !! this = Some o →
  entity_store w !! source = Some a →
  Forall (λ c, c < length (component_store w)) (Entity._components a) →
  ∃ w' o',
    copy this source w = (Normal (Component_array (Entity._components o')), w') ∧
    entity_store w' !! this = Some o' ∧
    type_at w' <$> Entity._components o' = type_at w <$> Entity._components a ∧
    data_at w' <$> Entity._components o' = data_at w <$> Entity._components a ∧
    (∀ c, c ∈ Entity._components o' → component_store w !! c = None) ∧
    Entity._type o' = Entity._type a ∧
    Entity._name o' = Entity._name a ∧
    Entity._dirty o' = Bool true ∧
    entity_store w' !! source = Some a ∧
    (∀ c, c ∈ Entity._components a → component_store w' !! c = component_store w !! c).
Proof.
  intros Hne Ho Ha Hv.
  pose proof (copy_run w this source o a Ho Ha) as Hrun.
  destruct (decide (this = source)) as [?|_]; [contradiction|].
  specialize (Hrun Hv).
  assert (Hcell : ∀ (T : Type) (f : Component.obj → T),
            (λ c, f <$> (component_store w ++ cells (component_store w) (Entity._components a)) !! c)
              <$> seq (length (component_store w)) (length (Entity._components a))
            = (λ c, f <$> component_store w !! c) <$> Entity._components a).
  { intros T f. apply list_eq. intros i. rewrite !list_lookup_fmap.
    destruct (Entity._components a !! i) as [c|] eqn:Hi.
    - rewrite lookup_seq_lt by (apply lookup_lt_Some in Hi; exact Hi). cbn.
      rewrite (lookup_cloned _ _ _ _ Hv Hi). reflexivity.
    - rewrite lookup_seq_ge by (apply lookup_ge_None in Hi; exact Hi). reflexivity. }
  eexists _, {| Entity.class := Entity.class o;
                Entity._uuid := Entity._uuid o;
                Entity._type := Entity._type a;
                Entity._name := Entity._name a;
                Entity._components :=
                  seq (length (component_store w)) (length (Entity._components a));
                Entity._tasks := Entity._tasks o;
                Entity.tasksDirty := Entity.tasksDirty o;
                Entity._dirty := Bool true |}.
  split; [exact Hrun|]. js_simpl.
  split; [apply list_lookup_insert_eq; apply lookup_lt_Some in Ho; exact Ho|].
  cbn [Entity._components Entity._type Entity._name Entity._dirty].
  split; [apply (Hcell _ Component._type)|].
  split; [apply (Hcell _ Component._data)|].
  split.
  { intros c Hc. apply elem_of_seq in Hc. apply lookup_ge_None. lia. }
  split; [reflexivity|]. split; [reflexivity|]. split; [reflexivity|].
  split; [rewrite list_lookup_insert_ne by exact Hne; exact Ha|].
  intros c Hc. apply lookup_app_l.
  rewrite Forall_forall in Hv. apply Hv, Hc.
Qed.

Lemma copy_replaces_components_witness :
  ∃ w' o',
    copy 1 0 (new_Entity "Entity" (Some nameless_config) scene).2
      = (Normal (Component_array (Entity._components o')), w') ∧
    entity_store w' !! 1 = Some o' ∧
    type_at w' <$> Entity._components o' = [Some "position"; Some "health"] ∧
    Entity._type o' = Str "unit" ∧
    Entity._name o' = Str "Tank" ∧
    Entity._dirty o' = Bool true.
Proof.
  destruct (copy_replaces_components
              (new_Entity "Entity" (Some nameless_config) scene).2 1 0
              {| Entity.class := "Entity"; Entity._uuid := Str "uuid-0";
                 Entity._type := Str "no-type"; Entity._name := Str "No Name";
                 Entity._components := [2]; Entity._tasks := [];
                 Entity.tasksDirty := Bool false; Entity._dirty := Bool false |}
              tank ltac:(discriminate) eq_refl eq_refl
              ltac:(repeat constructor))
    as (w' & o' & Hrun & Ho' & Hty & _ & _ & Ht & Hn & Hd & _).
  exists w', o'. auto 10.
Defined.

(** ** Independence of a copy *)

(** [setComponentData] writes to one Component of [this] and to the dirty
    flag of [this], and to nothing else. *)
Lemma setComponentData_loop_frame this type data cs : ∀ w,
  (∀ x, Entity._components <$>
          entity_store (setComponentData_loop this cs type data w).2 !! x
        = Entity._components <$> entity_store w !! x) ∧
  (∀ c, c ∉ cs →
        component_store (setComponentData_loop this cs type data w).2 !! c
        = component_store w !! c).
Proof.
  induction cs as [|c cs IH]; intros w; cbn [setComponentData_loop].
  - split; reflexivity.
  - destruct (component_store w !! c) as [item|] eqn:Hc.
    2:{ erewrite bind_throw by (apply Component_getType_dangling, Hc).
        split; reflexivity. }
    erewrite bind_normal by (apply Component_getType_run, Hc).
    destruct (String.eqb (Component._type item) type).
    + unfold Component_apply. rewrite !bind_assoc. js_step.
      assert (Hput : ∀ x, put_component c x w
                = (Normal (), with_components (<[c:=x]> (component_store w)) w)).
      { intros x. unfold put_component. rewrite Hc. reflexivity. }
      erewrite bind_normal by apply Hput.
      unfold setDirty. rewrite !bind_assoc.
      destruct (entity_store w !! this) as [o|] eqn:Ho.
      * unfold isDirty. repeat js_step. split.
        -- intros x. rewrite list_lookup_alter. case_decide; [subst x|reflexivity].
           rewrite Ho. reflexivity.
        -- intros c' Hc'. apply not_elem_of_cons in Hc' as [Hne _].
           apply list_lookup_insert_ne. congruence.
      * erewrite bind_throw
          by (unfold assign; js_simpl; rewrite Ho; reflexivity).
        js_simpl. split; [reflexivity|].
        intros c' Hc'. apply not_elem_of_cons in Hc' as [Hne _].
        apply list_lookup_insert_ne. congruence.
    + destruct (IH w) as [H1 H2]. split; [exact H1|].
      intros c' Hc'. apply not_elem_of_cons in Hc' as [_ Hc']. exact (H2 c' Hc').
Qed.

Lemma setComponentData_frame this type data w :
  (∀ x, Entity._components <$> entity_store (setComponentData this type data w).2 !! x
        = Entity._components <$> entity_store w !! x) ∧
  (∀ c, c ∉ components_of w this →
        component_store (setComponentData this type data w).2 !! c
        = component_store w !! c).
Proof.
  unfold setComponentData, getComponents, components_of.
  rewrite bind_assoc, bind_eq. unfold get_entity.
  destruct (entity_store w !! this) as [o|]; [|split; reflexivity].
  rewrite bind_eq, ret_eq. apply setComponentData_loop_frame.
Qed.

Lemma Array_find_agree target prop cs : ∀ w w2,
  (∀ c, c ∈ cs → component_store w2 !! c = component_store w !! c) →
  (Array_find target cs prop w2).1 = (Array_find target cs prop w).1.
Proof.
  induction cs as [|c cs IH]; intros w w2 H; cbn [Array_find]; [reflexivity|].
  rewrite !bind_eq. unfold get_component. rewrite (H c) by left.
  destruct (component_store w !! c) as [item|]; [|reflexivity].
  destruct (value_is _ _); [reflexivity|].
  apply IH. intros c' Hc'. apply H. right. exact Hc'.
Qed.

Lemma Array_find_elem target prop cs : ∀ w c w',
  Array_find target cs prop w = (Normal (Some c), w') → c ∈ cs.
Proof.
  induction cs as [|c' cs IH]; intros w c w'; cbn [Array_find]; [discriminate|].
  intros H. apply bind_inv in H as (item & w1 & _ & H).
  destruct (value_is _ _).
  - injection H as <- _. left.
  - right. exact (IH _ _ _ H).
Qed.

(** [getData] reads the Components of the entity and nothing else. *)
Lemma getData_agree w w2 e T :
  Entity._components <$> entity_store w2 !! e = Entity._components <$> entity_store w !! e →
  (∀ c, c ∈ components_of w e → component_store w2 !! c = component_store w !! c) →
  (getData e T w2).1 = (getData e T w).1.
Proof.
  unfold getData, getComponent, getItem, components_of. intros He Hc.
  rewrite !bind_assoc, !bind_eq. unfold get_entity.
  destruct (entity_store w !! e) as [o|], (entity_store w2 !! e) as [o2|];
    try discriminate; [|reflexivity].
  cbn in He, Hc. injection He as He. rewrite He, !bind_eq.
  pose proof (Array_find_agree (Str T) Component.key_type (Entity._components o) w w2 Hc) as Hf.
  destruct (Array_find (Str T) (Entity._components o) Component.key_type w2) as [r2 w2'] eqn:E2.
  destruct (Array_find (Str T) (Entity._components o) Component.key_type w) as [r w'] eqn:E.
  pose proof (Array_find_world _ _ _ _ _ _ E2) as ->.
  pose proof (Array_find_world _ _ _ _ _ _ E) as ->.
  cbn in Hf. subst r2. destruct r as [[c|]|err]; [| reflexivity | reflexivity].
  unfold Component_getData. rewrite !bind_assoc, !bind_eq. unfold get_component.
  rewrite (Hc c) by exact (Array_find_elem _ _ _ _ _ _ E).
  destruct (component_store w !! c); reflexivity.
Qed.

Lemma setComponentData_elsewhere w a b type data T :
  (∀ c, c ∈ components_of w b → c ∉ components_of w a) →
  (getData b T (setComponentData a type data w).2).1 = (getData b T w).1.
Proof.
  intros Hd. destruct (setComponentData_frame a type data w) as [H1 H2].
  apply getData_agree; [apply H1|]. intros c Hc. apply H2, Hd, Hc.
Qed.

Lemma disjoint_independent w a b :
  (∀ c, c ∈ components_of w a → c ∉ components_of w b) → independent w a b.
Proof.
  intros Hd. split; [exact Hd|]. split; intros type data T.
  - apply setComponentData_elsewhere. intros c Hb Ha. exact (Hd c Ha Hb).
  - apply setComponentData_elsewhere. exact Hd.
Qed.

(** After [target.copy( source )] the two hold no Component in common. *)
Lemma copy_independent w target source :
  is_Some (entity_store w !! target) →
  valid w source →
  ∃ w1,
    copy target source w
      = (Normal (Component_array (components_of w1 target)), w1) ∧
    independent w1 target source.
Proof.
  intros [o Ho] Hv. apply valid_lookup in Hv as (a & Ha & Hv).
  pose proof (copy_run w target source o a Ho Ha) as Hrun.
  assert (Hlt : target < length (entity_store w)) by (apply lookup_lt_Some in Ho; exact Ho).
  exists (copy target source w).2.
  destruct (decide (target = source)) as [<-|Hne].
  - specialize (Hrun ltac:(constructor)). rewrite Hrun. cbn [snd]. split.
    + do 2 f_equal. unfold components_of. js_simpl.
      rewrite list_lookup_insert_eq by exact Hlt. reflexivity.
    + apply disjoint_independent. unfold components_of. js_simpl.
      rewrite list_lookup_insert_eq by exact Hlt. cbn. intros c Hc. inversion Hc.
  - specialize (Hrun Hv). rewrite Hrun. cbn [snd]. split.
    + do 2 f_equal. unfold components_of. js_simpl.
      rewrite list_lookup_insert_eq by exact Hlt. reflexivity.
    + apply disjoint_independent. unfold components_of. js_simpl.
      rewrite list_lookup_insert_eq by exact Hlt.
      rewrite list_lookup_insert_ne by exact Hne. rewrite Ha. cbn.
      intros c Hc Hc'. apply elem_of_seq in Hc.
      rewrite Forall_forall in Hv. specialize (Hv c Hc'). cbn beta in Hv. lia.
Qed.

Lemma valid_new_entity w e o :
  valid w e →
  valid (with_entities (entity_store w ++ [o]) (with_drawn (S (drawn w)) w)) e.
Proof.
  intros [[a Ha] Hv]. unfold valid, components_of in *. js_simpl.
  rewrite lookup_app_l by (apply lookup_lt_Some in Ha; exact Ha).
  rewrite Ha in *. eauto.
Qed.

(** ** What [clone()] returns *)

(** C1. [clone()] builds an Entity of the class of [this] and copies
    [this] into it, but what it returns is the value of [copy], the new
    entity's array of Components: for no entity and no world is the value
    an Entity.  In the scene, cloning the tank returns the array of the
    Components 2 and 3, which entity 1, the clone, holds. *)
Theorem clone_returns_component_array :
  (∀ this w e, (clone this w).1 ≠ Normal (Entity_ref e)) ∧
  (∀ this w o,
     entity_store w !! this = Some o → valid w this →
     clone this w
       = copy (length (entity_store w)) this (new_Entity (Entity.class o) None w).2 ∧
     (clone this w).1
       = Normal (Component_array
                   (components_of (clone this w).2 (length (entity_store w)))) ∧
     Entity.class <$> entity_store (clone this w).2 !! length (entity_store w)
       = Some (Entity.class o)) ∧
  (clone 0 scene).1 = Normal (Component_array [2; 3]) ∧
  components_of (clone 0 scene).2 1 = [2; 3].
Proof.
  split; [|split; [|split; reflexivity]].
  - intros this w e H.
    destruct (clone this w) as [r w'] eqn:E. cbn in H. subst r.
    unfold clone in E.
    apply bind_inv in E as (o & w1 & _ & E).
    apply bind_inv in E as (fresh & w2 & _ & E).
    apply copy_value in E as [cs E]. discriminate.
  - intros this w o Ho Hv.
    assert (Hclone : clone this w
              = copy (length (entity_store w)) this
                     (new_Entity (Entity.class o) None w).2).
    { unfold clone. erewrite bind_normal by (apply get_entity_run, Ho).
      erewrite bind_normal by apply new_Entity_fresh.
      rewrite new_Entity_fresh. reflexivity. }
    split; [exact Hclone|]. rewrite Hclone, new_Entity_fresh. cbn [snd].
    apply (valid_new_entity _ _
             {| Entity.class := Entity.class o;
                Entity._uuid := Str (uuid_v4 w (drawn w));
                Entity._type := Str "untyped"; Entity._name := Str "No Name";
                Entity._components := []; Entity._tasks := [];
                Entity.tasksDirty := Undefined; Entity._dirty := Bool false |}) in Hv.
    apply valid_lookup in Hv as (a & Ha & Hv).
    erewrite copy_run;
      [ | js_simpl; apply list_lookup_middle; reflexivity | exact Ha
        | destruct (decide _); [constructor | exact Hv] ].
    cbn [fst snd]. unfold components_of. js_simpl.
    rewrite list_lookup_insert_eq by (rewrite length_app; cbn; lia).
    split; reflexivity.
Qed.

Lemma clone_returns_component_array_witness :
  clone 0 scene = copy 1 0 (new_Entity "Entity" None scene).2 ∧
  (clone 0 scene).1 = Normal (Component_array (components_of (clone 0 scene).2 1)) ∧
  Entity.class <$> entity_store (clone 0 scene).2 !! 1 = Some "Entity".
Proof.
  refine (proj1 (proj2 clone_returns_component_array) 0 scene tank eq_refl _).
  split; [eexists; reflexivity | repeat constructor].
Defined.

(** C6. After [target.copy( E )], and after [E.clone()] for the entity the
    clone builds, the result and [E] hold no Component in common:
    [setComponentData] on the result leaves what [getData] returns on [E]
    as it was, for every type, and [setComponentData] on [E] leaves what
    [getData] returns on the result as it was.  (What [clone()] returns is
    the array of the new entity's Components.) *)
Theorem copies_share_no_component (w : World) (E : loc) :
  valid w E →
  (∀ target, is_Some (entity_store w !! target) →
     ∃ w1,
       copy target E w = (Normal (Component_array (components_of w1 target)), w1) ∧
       independent w1 target E) ∧
  (∃ w1,
     clone E w
       = (Normal (Component_array (components_of w1 (length (entity_store w)))), w1) ∧
     independent w1 (length (entity_store w)) E).
Proof.
  intros Hv. split.
  - intros target Ht. apply copy_independent; assumption.
  - pose proof Hv as [[o Ho] _].
    unfold clone. erewrite bind_normal by (apply get_entity_run, Ho).
    erewrite bind_normal by apply new_Entity_fresh.
    match goal with |- context [ copy _ E ?x ] => set (w0 := x) end.
    destruct (copy_independent w0 (length (entity_store w)) E) as (w1 & Hrun & Hind).
    + subst w0. js_simpl. rewrite list_lookup_middle by reflexivity. eauto.
    + apply valid_new_entity, Hv.
    + exists w1. split; assumption.
Qed.

Lemma copies_share_no_component_witness :
  ∃ w1,
    clone 0 scene = (Normal (Component_array (components_of w1 1)), w1) ∧
    independent w1 1 0.
Proof.
  refine (proj2 (copies_share_no_component scene 0 _)).
  split; [eexists; reflexivity | repeat constructor].
Defined.

(** In the scene: the clone of the tank takes a new position, the tank
    keeps its own. *)
Example clone_then_move :
  let w1 := (clone 0 scene).2 in
  let w2 := (setComponentData 1 "position" {[ "x" := Num 9 ]} w1).2 in
  (getData 1 "position" w2).1 = Normal (Object {[ "x" := Num 9 ]}) ∧
  (getData 0 "position" w2).1 = Normal (Object {[ "x" := Num 1 ]}).
Proof. split; reflexivity. Qed.

(** * More of Entity.js *)

(** ** The task queue *)

Lemma insertTasks_run w this o tasks :
  entity_store w !! this = Some o →
  insertTasks this tasks w =
    (Normal (Prim Undefined),
     with_entities
       (alter (Entity.set_dirty (Bool true)) this
          (alter (Entity.set_tasksDirty (Bool true)) this
             (alter (Entity.set_tasks (tasks ++ Entity._tasks o)) this (entity_store w)))) w).
Proof.
  intros H. unfold insertTasks, this_tasks. do 3 js_step.
  erewrite bind_normal by (eapply setDirty_run; js_lookup).
  rewrite ret_eq. reflexivity.
Qed.

Lemma setTasks_run w this o tasks :
  entity_store w !! this = Some o →
  setTasks this tasks w =
    (Normal (Prim Undefined),
     with_entities
       (alter (Entity.set_dirty (Bool true)) this
          (alter (Entity.set_tasksDirty (Bool true)) this
             (alter (Entity.set_tasks tasks) this (entity_store w)))) w).
Proof.
  intros H. unfold setTasks, this_tasks. do 2 js_step.
  erewrite bind_normal by (eapply setDirty_run; js_lookup).
  rewrite ret_eq. reflexivity.
Qed.

Lemma advanceTasks_run w this o :
  entity_store w !! this = Some o →
  advanceTasks this w =
    (Normal (Prim Undefined),
     with_entities
       (alter (Entity.set_dirty (Bool true)) this
          (alter (Entity.set_tasksDirty (Bool true)) this
             (alter (λ o, Entity.set_tasks (tail (Entity._tasks o)) o) this
                (entity_store w)))) w).
Proof.
  intros H. unfold advanceTasks, this_tasks. do 2 js_step.
  erewrite bind_normal by (eapply setDirty_run; js_lookup).
  rewrite ret_eq. reflexivity.
Qed.

(** X1. [insertTasks( tasks )] puts [tasks] in front of the stored
    sequence, in their order, and sets both flags; it returns undefined
    and changes nothing else: not the Components of the entity, not
    another entity, no Component. *)
Theorem insertTasks_prepends (w : World) (this : loc) (o : Entity.obj)
    (tasks : list object) :
  entity_store w !! this = Some o →
  ∃ w1 o1,
    insertTasks this tasks w = (Normal (Prim Undefined), w1) ∧
    entity_store w1 !! this = Some o1 ∧
    getTasks this w1 = (Normal (tasks ++ Entity._tasks o), w1) ∧
    Entity.tasksDirty o1 = Bool true ∧
    Entity._dirty o1 = Bool true ∧
    Entity._components o1 = Entity._components o ∧
    Entity._uuid o1 = Entity._uuid o ∧
    (∀ x, x ≠ this → entity_store w1 !! x = entity_store w !! x) ∧
    component_store w1 = component_store w.
Proof.
  intros H. eexists _, _. split; [apply (insertTasks_run _ _ _ _ H)|].
  js_simpl. split; [rewrite !list_lookup_alter_eq, H; reflexivity|].
  split.
  { unfold getTasks. repeat js_step. reflexivity. }
  do 4 (split; [reflexivity|]). split; [|reflexivity].
  intros x Hx. rewrite !list_lookup_alter_ne by congruence. reflexivity.
Qed.

Lemma insertTasks_prepends_witness :
  ∃ w1 o1,
    insertTasks 0 [fire_task; halt_task] scene = (Normal (Prim Undefined), w1) ∧
    entity_store w1 !! 0 = Some o1 ∧
    getTasks 0 w1 = (Normal [fire_task; halt_task; move_task], w1) ∧
    Entity.tasksDirty o1 = Bool true.
Proof.
  destruct (insertTasks_prepends scene 0 tank [fire_task; halt_task] eq_refl)
    as (w1 & o1 & Hrun & Ho & Ht & Hd & _).
  exists w1, o1. auto.
Defined.

(** X2. [setTasks( tasks )] replaces the stored sequence by [tasks],
    whatever it was, and sets both flags; [getCurrentTask()] is then the
    first of [tasks], or undefined when [tasks] is empty. *)
Theorem setTasks_replaces (w : World) (this : loc) (o : Entity.obj)
    (tasks : list object) :
  entity_store w !! this = Some o →
  ∃ w1 o1,
    setTasks this tasks w = (Normal (Prim Undefined), w1) ∧
    entity_store w1 !! this = Some o1 ∧
    getTasks this w1 = (Normal tasks, w1) ∧
    getCurrentTask this w1
      = (Normal (from_option Object (Prim Undefined) (head tasks)), w1) ∧
    Entity.tasksDirty o1 = Bool true ∧
    Entity._dirty o1 = Bool true ∧
    Entity._components o1 = Entity._components o.
Proof.
  intros H. eexists _, _. split; [apply (setTasks_run _ _ _ _ H)|].
  js_simpl. split; [rewrite !list_lookup_alter_eq, H; reflexivity|].
  split; [|split].
  - unfold getTasks. repeat js_step. reflexivity.
  - unfold getCurrentTask. js_step. cbn. destruct tasks; reflexivity.
  - repeat split; reflexivity.
Qed.

Lemma setTasks_replaces_witness :
  ∃ w1 o1,
    setTasks 0 [] scene = (Normal (Prim Undefined), w1) ∧
    entity_store w1 !! 0 = Some o1 ∧
    getTasks 0 w1 = (Normal [], w1) ∧
    getCurrentTask 0 w1 = (Normal (Prim Undefined), w1).
Proof.
  destruct (setTasks_replaces scene 0 tank [] eq_refl)
    as (w1 & o1 & Hrun & Ho & Ht & Hc & _).
  exists w1, o1. auto.
Defined.

Lemma after_advances this k : ∀ w o,
  entity_store w !! this = Some o →
  Entity._tasks <$> entity_store (after_calls this (replicate k call_advanceTasks) w) !! this
  = Some (drop k (Entity._tasks o)).
Proof.
  unfold after_calls. induction k as [|k IH]; intros w o H.
  - cbn. rewrite H. reflexivity.
  - cbn [replicate foldl invoke].
    rewrite (advanceTasks_run _ _ _ H). cbn [snd].
    erewrite (IH _ _); [|js_simpl; rewrite !list_lookup_alter_eq, H; reflexivity].
    cbn. destruct (Entity._tasks o); cbn; [rewrite drop_nil|]; reflexivity.
Qed.

(** X3. [advanceTasks()] called [k] times leaves the stored sequence
    without its first [k] tasks: empty once [k] reaches its length, and
    still empty after that. *)
Theorem advanceTasks_drops (w : World) (this : loc) (o : Entity.obj) (k : nat) :
  entity_store w !! this = Some o →
  getTasks this (after_calls this (replicate k call_advanceTasks) w)
  = (Normal (drop k (Entity._tasks o)),
     after_calls this (replicate k call_advanceTasks) w) ∧
  (length (Entity._tasks o) ≤ k →
   getCurrentTask this (after_calls this (replicate k call_advanceTasks) w)
   = (Normal (Prim Undefined), after_calls this (replicate k call_advanceTasks) w)).
Proof.
  intros H. pose proof (after_advances this k w o H) as Hk.
  destruct (entity_store (after_calls this (replicate k call_advanceTasks) w) !! this)
    as [ok|] eqn:E; [|discriminate].
  cbn in Hk. injection Hk as Hk.
  split.
  - unfold getTasks. repeat js_step. rewrite Hk. reflexivity.
  - intros Hle. unfold getCurrentTask. js_step. rewrite Hk.
    rewrite drop_ge by exact Hle. reflexivity.
Qed.

Lemma advanceTasks_drops_witness :
  getTasks 0 (after_calls 0 (replicate 2 call_advanceTasks) patrol_scene)
  = (Normal [halt_task], after_calls 0 (replicate 2 call_advanceTasks) patrol_scene).
Proof. exact (proj1 (advanceTasks_drops patrol_scene 0 patrol 2 eq_refl)). Defined.

(** X4. [insertTasks( tasks )] followed by as many [advanceTasks()] as
    there are tasks in [tasks] leaves the stored sequence as it was
    before. *)
Theorem insertTasks_then_advance (w : World) (this : loc) (o : Entity.obj)
    (tasks : list object) :
  entity_store w !! this = Some o →
  getTasks this
    (after_calls this
       (call_insertTasks tasks :: replicate (length tasks) call_advanceTasks) w)
  = (Normal (Entity._tasks o),
     after_calls this
       (call_insertTasks tasks :: replicate (length tasks) call_advanceTasks) w).
Proof.
  intros H. cbn [after_calls foldl invoke].
  rewrite (insertTasks_run _ _ _ _ H). cbn [snd].
  match goal with |- context [ foldl _ ?x _ ] => set (w1 := x) end.
  assert (H1 : entity_store w1 !! this
               = Some (Entity.set_dirty (Bool true)
                         (Entity.set_tasksDirty (Bool true)
                            (Entity.set_tasks (tasks ++ Entity._tasks o) o)))).
  { subst w1. js_simpl. rewrite !list_lookup_alter_eq, H. reflexivity. }
  destruct (advanceTasks_drops w1 this _ (length tasks) H1) as [Hd _].
  unfold after_calls in Hd. rewrite Hd. cbn [Entity._tasks Entity.set_dirty
    Entity.set_tasksDirty Entity.set_tasks]. rewrite drop_app_length. reflexivity.
Qed.

Lemma insertTasks_then_advance_witness :
  getTasks 0
    (after_calls 0
       (call_insertTasks [fire_task; halt_task] :: replicate 2 call_advanceTasks) scene)
  = (Normal [move_task],
     after_calls 0
       (call_insertTasks [fire_task; halt_task] :: replicate 2 call_advanceTasks) scene).
Proof. exact (insertTasks_then_advance scene 0 tank [fire_task; halt_task] eq_refl). Defined.

(** ** Adding and removing Components *)

Lemma find_type_app w T l1 l2 :
  find_type w T (l1 ++ l2)
  = match find_type w T l1 with
    | Some c => Some c
    | None => find_type w T l2
    end.
Proof.
  induction l1 as [|c l1 IH]; [reflexivity|]. cbn.
  case_bool_decide; [reflexivity | exact IH].
Qed.

Lemma find_type_Some w T cs c :
  find_type w T cs = Some c → c ∈ cs ∧ type_at w c = Some T.
Proof.
  induction cs as [|c' cs IH]; cbn; [discriminate|].
  case_bool_decide as Hc.
  - intros [= <-]. split; [left | exact Hc].
  - intros H. apply IH in H as [? ?]. split; [right|]; assumption.
Qed.

Lemma find_type_ext w w' T cs :
  (∀ c, c ∈ cs → type_at w' c = type_at w c) →
  find_type w' T cs = find_type w T cs.
Proof.
  induction cs as [|c cs IH]; intros H; [reflexivity|]. cbn.
  rewrite (H c) by left. rewrite IH by (intros; apply H; right; assumption).
  reflexivity.
Qed.

Lemma find_type_delete w T T' cs i c :
  cs !! i = Some c → type_at w c = Some T → T' ≠ T →
  find_type w T' (delete i cs) = find_type w T' cs.
Proof.
  revert i. induction cs as [|c' cs IH]; intros i Hi Hc Hne; [discriminate|].
  destruct i as [|i]; cbn in Hi |- *.
  - injection Hi as ->. rewrite bool_decide_eq_false_2 by congruence. reflexivity.
  - case_bool_decide; [reflexivity|]. eapply IH; eassumption.
Qed.

Lemma indexOf_from_Some k cs c j :
  indexOf_from k cs c = Some j → ∃ i, j = k + i ∧ cs !! i = Some c.
Proof.
  revert k. induction cs as [|y cs IH]; intros k; cbn; [discriminate|].
  destruct (Nat.eqb_spec y c) as [->|Hne].
  - intros [= <-]. exists 0. split; [lia | reflexivity].
  - intros H. apply IH in H as (i & -> & Hi). exists (S i). split; [lia | exact Hi].
Qed.

Lemma indexOf_from_elem k cs c :
  c ∈ cs → is_Some (indexOf_from k cs c).
Proof.
  revert k. induction cs as [|y cs IH]; intros k Hc; [inversion Hc|].
  cbn. destruct (Nat.eqb_spec y c) as [->|Hne]; [eauto|].
  apply elem_of_cons in Hc as [->|Hc]; [congruence | auto].
Qed.

Lemma indexOf_from_snoc k cs c :
  c ∉ cs → indexOf_from k (cs ++ [c]) c = Some (k + length cs).
Proof.
  revert k. induction cs as [|y cs IH]; intros k Hc; cbn.
  - rewrite Nat.eqb_refl. f_equal. lia.
  - apply not_elem_of_cons in Hc as [Hne Hc].
    destruct (Nat.eqb_spec y c) as [->|_]; [congruence|].
    rewrite IH by exact Hc. f_equal. lia.
Qed.

Lemma hasComponent_false w this o T :
  entity_store w !! this = Some o →
  Forall (λ c, c < length (component_store w)) (Entity._components o) →
  hasComponent this T w = (Normal false, w) →
  find_type w T (Entity._components o) = None.
Proof.
  intros Ho Hv. rewrite (hasComponent_run _ _ _ _ Ho Hv).
  destruct (find_type w T (Entity._components o)); [|reflexivity].
  rewrite bool_decide_eq_true_2 by eauto. discriminate.
Qed.

(** X5. [_addComponent( component )] on an entity that has no Component
    of its type puts the Component at the end of the sequence and returns
    the sequence; the entity then has the type, [getComponent] of the
    type is the Component added, [getComponent] of every other type is
    what it was, the entity is dirty and no Component has changed. *)
Theorem addComponent_appends (w : World) (this component : loc) (type : string) :
  valid w this →
  Component_getType component w = (Normal type, w) →
  hasComponent this type w = (Normal false, w) →
  ∃ w1,
    _addComponent this component w
      = (Normal (Component_array (components_of w this ++ [component])), w1) ∧
    getComponents this w1 = (Normal (components_of w this ++ [component]), w1) ∧
    hasComponent this type w1 = (Normal true, w1) ∧
    getComponent this type w1 = (Normal (Some component), w1) ∧
    (∀ T, T ≠ type → (getComponent this T w1).1 = (getComponent this T w).1) ∧
    dirty_at w1 this ∧
    component_store w1 = component_store w.
Proof.
  intros Hv Ht Hh. apply valid_lookup in Hv as (o & Ho & Hv).
  rewrite (components_of_lookup _ _ _ Ho).
  unfold Component_getType in Ht. apply bind_inv in Ht as (item & w0 & Hi & Ht).
  apply get_component_inv in Hi as [Hi ->]. injection Ht as Ht.
  pose proof (hasComponent_false _ _ _ _ Ho Hv Hh) as Hf.
  pose proof (_addComponent_run _ _ _ _ _ Ho Hv Hi) as Hrun.
  rewrite Ht, Hf in Hrun. eexists. split; [exact Hrun|].
  set (w1 := with_entities _ w).
  assert (Ho1 : entity_store w1 !! this
                = Some (Entity.set_dirty (Bool true)
                          (Entity.set_components (Entity._components o ++ [component]) o))).
  { subst w1. js_simpl. rewrite !list_lookup_alter_eq, Ho. reflexivity. }
  assert (Hv1 : Forall (λ c, c < length (component_store w1))
                       (Entity._components o ++ [component])).
  { apply Forall_app. split; [exact Hv|]. apply Forall_singleton.
    apply lookup_lt_Some in Hi. exact Hi. }
  assert (Hfind : ∀ T, find_type w1 T (Entity._components o ++ [component])
                       = match find_type w T (Entity._components o) with
                         | Some c => Some c
                         | None => if bool_decide (type = T) then Some component else None
                         end).
  { intros T. rewrite find_type_app.
    rewrite !(find_type_ext w w1) by (intros; reflexivity).
    destruct (find_type w T (Entity._components o)); [reflexivity|]. cbn.
    rewrite (type_at_Some _ _ _ Hi), Ht.
    repeat case_bool_decide; congruence. }
  split; [unfold getComponents; repeat js_step; reflexivity|].
  split.
  { rewrite (hasComponent_run _ _ _ _ Ho1 Hv1). cbn [Entity._components
      Entity.set_dirty Entity.set_components]. rewrite Hfind, Hf.
    rewrite (bool_decide_eq_true_2 (type = type) eq_refl).
    rewrite bool_decide_eq_true_2 by eauto. reflexivity. }
  split.
  { rewrite (getComponent_run _ _ _ _ Ho1 Hv1). cbn [Entity._components
      Entity.set_dirty Entity.set_components]. rewrite Hfind, Hf.
    rewrite (bool_decide_eq_true_2 (type = type) eq_refl). reflexivity. }
  split.
  { intros T HT.
    rewrite (getComponent_run _ _ _ _ Ho1 Hv1), (getComponent_run _ _ _ _ Ho Hv).
    cbn [Entity._components Entity.set_dirty Entity.set_components fst].
    rewrite Hfind. destruct (find_type w T (Entity._components o)); [reflexivity|].
    rewrite bool_decide_eq_false_2 by congruence. reflexivity. }
  split; [|reflexivity].
  unfold dirty_at. rewrite Ho1. reflexivity.
Qed.

Lemma addComponent_appends_witness :
  ∃ w1,
    _addComponent 1 1 two_entities = (Normal (Component_array [2; 1]), w1) ∧
    hasComponent 1 "health" w1 = (Normal true, w1) ∧
    getComponent 1 "health" w1 = (Normal (Some 1), w1).
Proof.
  destruct (addComponent_appends two_entities 1 1 "health") as (w1 & Hrun & _ & Hh & Hg & _).
  - split; [eexists; reflexivity | repeat constructor].
  - reflexivity.
  - reflexivity.
  - exists w1. auto.
Defined.

Lemma NoDup_not_elem_of_delete {A} (l : list A) i x :
  NoDup l → l !! i = Some x → x ∉ delete i l.
Proof.
  intros Hnd. revert i. induction Hnd as [|a l Ha Hnd IH]; intros i Hi; [discriminate|].
  destruct i as [|i]; cbn in *.
  - injection Hi as ->. exact Ha.
  - apply not_elem_of_cons. split.
    + intros ->. apply Ha. eapply list_elem_of_lookup_2. exact Hi.
    + apply IH, Hi.
Qed.

(** X6. [_removeComponent( type )] on an entity that has a Component of
    the type takes that Component out of the sequence and returns the
    sequence, the others staying in their order; the entity then has no
    Component of the type, [getComponent] of every other type is what it
    was, the entity is dirty and no Component has changed. *)
Theorem removeComponent_removes (w : World) (this component : loc) (type : string) :
  unique_types w this →
  getComponent this type w = (Normal (Some component), w) →
  ∃ w1 i,
    components_of w this !! i = Some component ∧
    _removeComponent this type w
      = (Normal (Component_array (delete i (components_of w this))), w1) ∧
    getComponents this w1 = (Normal (delete i (components_of w this)), w1) ∧
    hasComponent this type w1 = (Normal false, w1) ∧
    (∀ T, T ≠ type → (getComponent this T w1).1 = (getComponent this T w).1) ∧
    dirty_at w1 this ∧
    component_store w1 = component_store w.
Proof.
  intros [Hv Hnd] Hg. apply valid_lookup in Hv as (o & Ho & Hv).
  rewrite (components_of_lookup _ _ _ Ho) in *.
  rewrite (getComponent_run _ _ _ _ Ho Hv) in Hg. injection Hg as Hf.
  pose proof (find_type_Some _ _ _ _ Hf) as [Hin Hty].
  pose proof (_removeComponent_run _ _ _ type Ho Hv) as Hrun.
  rewrite Hf in Hrun. cbn [indexOf] in Hrun.
  destruct (indexOf_from_elem 0 _ _ Hin) as [j Hj]. rewrite Hj in Hrun.
  apply indexOf_from_Some in Hj as (i & -> & Hi). cbn [Nat.add] in Hrun.
  exists (_removeComponent this type w).2, i. rewrite Hrun. cbn [snd].
  split; [exact Hi|]. split; [reflexivity|].
  set (w1 := with_entities _ w).
  assert (Ho1 : entity_store w1 !! this
                = Some (Entity.set_dirty (Bool true)
                          (Entity.set_components (delete i (Entity._components o)) o))).
  { subst w1. js_simpl. rewrite !list_lookup_alter_eq, Ho. reflexivity. }
  assert (Hv1 : Forall (λ c, c < length (component_store w1))
                       (delete i (Entity._components o))) by apply Forall_delete, Hv.
  split; [unfold getComponents; repeat js_step; reflexivity|].
  split.
  { rewrite (hasComponent_run _ _ _ _ Ho1 Hv1). cbn [Entity._components
      Entity.set_dirty Entity.set_components].
    rewrite (find_type_ext w w1) by (intros; reflexivity).
    replace (find_type w type (delete i (Entity._components o))) with (@None loc).
    - rewrite bool_decide_eq_false_2 by (intros [? ?]; discriminate). reflexivity.
    - symmetry. apply find_type_None. rewrite list_fmap_delete.
      apply NoDup_not_elem_of_delete; [exact Hnd|].
      rewrite list_lookup_fmap, Hi. cbn. rewrite Hty. reflexivity. }
  split.
  { intros T HT.
    rewrite (getComponent_run _ _ _ _ Ho1 Hv1), (getComponent_run _ _ _ _ Ho Hv).
    cbn [Entity._components Entity.set_dirty Entity.set_components fst].
    rewrite (find_type_ext w w1) by (intros; reflexivity).
    rewrite (find_type_delete _ type T _ _ _ Hi Hty HT). reflexivity. }
  split; [|reflexivity].
  unfold dirty_at. rewrite Ho1. reflexivity.
Qed.

Lemma removeComponent_removes_witness :
  ∃ w1,
    _removeComponent 0 "position" scene = (Normal (Component_array [1]), w1) ∧
    hasComponent 0 "position" w1 = (Normal false, w1).
Proof.
  destruct (removeComponent_removes scene 0 0 "position") as (w1 & i & Hi & Hrun & _ & Hh & _).
  - exact (proj1 (proj2 (new_Entity_unique "Entity" (Some tank_config) empty_world
                            0 scene eq_refl))).
  - reflexivity.
  - exists w1. destruct i as [|[|i]]; [auto | discriminate Hi | discriminate Hi].
Defined.

(** X7. Adding a Component of a type the entity does not have and then
    removing that type leaves the entity with the sequence of Components
    it had: only its dirty flag, now true, may differ, and no Component
    has changed. *)
Theorem add_then_remove (w : World) (this component : loc) (type : string)
    (o : Entity.obj) :
  entity_store w !! this = Some o →
  Forall (λ c, c < length (component_store w)) (Entity._components o) →
  Component_getType component w = (Normal type, w) →
  hasComponent this type w = (Normal false, w) →
  entity_store
    (after_calls this [call_addComponent component; call_removeComponent type] w)
  = <[this := Entity.set_dirty (Bool true) o]> (entity_store w) ∧
  component_store
    (after_calls this [call_addComponent component; call_removeComponent type] w)
  = component_store w.
Proof.
  intros Ho Hv Ht Hh.
  unfold Component_getType in Ht. apply bind_inv in Ht as (item & w0 & Hi & Ht).
  apply get_component_inv in Hi as [Hi ->]. injection Ht as Ht.
  pose proof (hasComponent_false _ _ _ _ Ho Hv Hh) as Hf.
  assert (Hnotin : component ∉ Entity._components o).
  { intros Hin. apply find_type_None in Hf. apply Hf.
    rewrite <- Ht, <- (type_at_Some _ _ _ Hi). apply list_elem_of_fmap_2, Hin. }
  cbn [after_calls foldl invoke].
  rewrite (_addComponent_run _ _ _ _ _ Ho Hv Hi), Ht, Hf. cbn [snd].
  set (w1 := with_entities _ w).
  assert (Ho1 : entity_store w1 !! this
                = Some (Entity.set_dirty (Bool true)
                          (Entity.set_components (Entity._components o ++ [component]) o))).
  { subst w1. js_simpl. rewrite !list_lookup_alter_eq, Ho. reflexivity. }
  assert (Hv1 : Forall (λ c, c < length (component_store w1))
                       (Entity._components o ++ [component])).
  { apply Forall_app. split; [exact Hv|]. apply Forall_singleton.
    apply lookup_lt_Some in Hi. exact Hi. }
  rewrite (_removeComponent_run _ _ _ type Ho1 Hv1).
  cbn [Entity._components Entity.set_dirty Entity.set_components].
  rewrite find_type_app, !(find_type_ext w w1) by (intros; reflexivity).
  rewrite Hf. cbn [find_type]. rewrite (type_at_Some _ _ _ Hi), Ht.
  rewrite (bool_decide_eq_true_2 (Some type = Some type) eq_refl).
  cbn [indexOf]. rewrite (indexOf_from_snoc 0 _ _ Hnotin). cbn [Nat.add snd].
  subst w1. js_simpl. split; [|reflexivity].
  rewrite !list_alter_alter_eq, (alter_to_insert _ _ _ _ Ho). f_equal.
  cbn. rewrite delete_middle, app_nil_r. destruct o; reflexivity.
Qed.

Lemma add_then_remove_witness :
  entity_store
    (after_calls 1 [call_addComponent 1; call_removeComponent "health"] two_entities)
  = <[1 := Entity.set_dirty (Bool true)
             {| Entity.class := "Entity"; Entity._uuid := Str "uuid-0";
                Entity._type := Str "no-type"; Entity._name := Str "No Name";
                Entity._components := [2]; Entity._tasks := [];
                Entity.tasksDirty := Bool false; Entity._dirty := Bool false |}]>
      (entity_store two_entities).
Proof.
  refine (proj1 (add_then_remove two_entities 1 1 "health" _ eq_refl _ eq_refl eq_refl)).
  repeat constructor.
Defined.

(** ** The list of types *)

Lemma types_of_cells w cs :
  Forall (λ c, c < length (component_store w)) cs →
  type_at w <$> cs = Some <$> (Component._type <$> cells (component_store w) cs).
Proof.
  induction 1 as [|c cs Hc _ IH]; [reflexivity|].
  apply lookup_lt_is_Some_2 in Hc as [item Hi].
  rewrite (cells_cons _ _ _ _ Hi), !fmap_cons, IH, (type_at_Some _ _ _ Hi). reflexivity.
Qed.

Lemma getComponentList_run w this o :
  entity_store w !! this = Some o →
  Forall (λ c, c < length (component_store w)) (Entity._components o) →
  getComponentList this w
  = (Normal (Component._type <$> cells (component_store w) (Entity._components o)), w).
Proof.
  intros Ho Hv. unfold getComponentList. js_step.
  induction Hv as [|c cs Hc _ IH]; [reflexivity|].
  apply lookup_lt_is_Some_2 in Hc as [item Hi].
  cbn [foldr]. erewrite bind_normal by (apply Component_getType_run, Hi).
  erewrite bind_normal by exact IH.
  rewrite ret_eq, (cells_cons _ _ _ _ Hi). reflexivity.
Qed.

(** X8. [getComponentList()] returns one type per Component of the
    entity, in the order of the Components, and changes nothing;
    [hasComponent( T )] is true exactly for the types in that list. *)
Theorem getComponentList_lists_types (w : World) (this : loc) :
  valid w this →
  ∃ types,
    getComponentList this w = (Normal types, w) ∧
    Some <$> types = type_at w <$> components_of w this ∧
    (∀ T, hasComponent this T w = (Normal (bool_decide (T ∈ types)), w)).
Proof.
  intros Hv. apply valid_lookup in Hv as (o & Ho & Hv).
  rewrite (components_of_lookup _ _ _ Ho).
  eexists. split; [apply (getComponentList_run _ _ _ Ho Hv)|].
  split; [symmetry; apply types_of_cells, Hv|].
  intros T. rewrite (hasComponent_run _ _ _ _ Ho Hv). do 2 f_equal.
  apply bool_decide_ext.
  rewrite <- (list_elem_of_fmap_inj Some), <- types_of_cells by exact Hv.
  destruct (find_type w T (Entity._components o)) as [c|] eqn:Hf.
  - split; [intros _ | eauto].
    apply find_type_Some in Hf as [Hin Hty]. rewrite <- Hty.
    apply list_elem_of_fmap_2, Hin.
  - split; [intros [? ?]; discriminate|].
    intros Hin. apply find_type_None in Hf. contradiction.
Qed.

Lemma getComponentList_lists_types_witness :
  ∃ types,
    getComponentList 0 scene = (Normal types, scene) ∧
    Some <$> types = [Some "position"; Some "health"] ∧
    hasComponent 0 "armor" scene = (Normal (bool_decide ("armor" ∈ types)), scene).
Proof.
  destruct (getComponentList_lists_types scene 0) as (types & Hrun & Hty & Hh).
  - split; [eexists; reflexivity | repeat constructor].
  - exists types. auto.
Defined.

(** ** Component data *)

Lemma put_component_run w c x o :
  component_store w !! c = Some x →
  put_component c o w = (Normal (), with_components (<[c:=o]> (component_store w)) w).
Proof. intros H. unfold put_component. rewrite H. reflexivity. Qed.

Lemma setComponentData_loop_run this T d : ∀ cs w o c item,
  entity_store w !! this = Some o →
  Forall (λ c, c < length (component_store w)) cs →
  find_type w T cs = Some c →
  component_store w !! c = Some item →
  setComponentData_loop this cs T d w =
    (Normal (Component_ref c),
     with_entities (alter (Entity.set_dirty (Bool true)) this (entity_store w))
       (with_components
          (<[c := {| Component._type := Component._type item;
                     Component._data := d ∪ Component._data item |}]>
             (component_store w)) w)).
Proof.
  induction cs as [|c0 cs IH]; intros w o c item Ho Hv Hf Hi; [discriminate|].
  apply Forall_cons in Hv as [Hc0 Hv].
  apply lookup_lt_is_Some_2 in Hc0 as [item0 Hi0].
  cbn [setComponentData_loop find_type] in *.
  erewrite bind_normal by (apply Component_getType_run, Hi0).
  rewrite (type_at_Some _ _ _ Hi0) in Hf.
  destruct (decide (Component._type item0 = T)) as [Heq|Hne].
  - rewrite bool_decide_eq_true_2 in Hf by congruence. injection Hf as <-.
    rewrite Hi0 in Hi. injection Hi as <-.
    apply String.eqb_eq in Heq. rewrite Heq.
    unfold Component_apply. rewrite !bind_assoc. js_step.
    erewrite bind_normal by (apply (put_component_run _ _ _ _ Hi0)).
    erewrite bind_normal by (eapply setDirty_run; js_lookup).
    rewrite ret_eq. reflexivity.
  - rewrite bool_decide_eq_false_2 in Hf by congruence.
    apply String.eqb_neq in Hne. rewrite Hne. eapply IH; eassumption.
Qed.

Lemma getData_run w this o T :
  entity_store w !! this = Some o →
  Forall (λ c, c < length (component_store w)) (Entity._components o) →
  getData this T w =
    match find_type w T (Entity._components o) with
    | Some c =>
        match component_store w !! c with
        | Some item => (Normal (Object (Component._data item)), w)
        | None => (Throw (BadRef c), w)
        end
    | None =>
        (Normal (Prim Null),
         with_console (console w ++
           [warn [Str "Component with type "; Str T; Str " doesn't exist!"]]) w)
    end.
Proof.
  intros Ho Hv. unfold getData.
  erewrite bind_normal by (eapply getComponent_run; eassumption).
  destruct (find_type w T (Entity._components o)) as [c|]; [|reflexivity].
  unfold Component_getData. rewrite bind_assoc, bind_eq. unfold get_component.
  destruct (component_store w !! c); reflexivity.
Qed.

(** X9. [setComponentData( type, data )] on an entity that has a Component
    of the type returns that Component; [getData( type )] then returns
    the data merged into what it returned before.  The data of the other
    types, the sequence of Components and the type of every Component
    are as they were, and the entity is dirty. *)
Theorem setComponentData_then_getData (w : World) (this : loc) (type : string)
    (data old : object) :
  valid w this →
  getData this type w = (Normal (Object old), w) →
  ∃ w1 component,
    getComponent this type w = (Normal (Some component), w) ∧
    setComponentData this type data w = (Normal (Component_ref component), w1) ∧
    getData this type w1 = (Normal (Object (data ∪ old)), w1) ∧
    (∀ T, T ≠ type → (getData this T w1).1 = (getData this T w).1) ∧
    getComponents this w1 = (Normal (components_of w this), w1) ∧
    (∀ c, type_at w1 c = type_at w c) ∧
    dirty_at w1 this.
Proof.
  intros Hv Hg. apply valid_lookup in Hv as (o & Ho & Hv).
  rewrite (components_of_lookup _ _ _ Ho).
  rewrite (getData_run _ _ _ _ Ho Hv) in Hg.
  destruct (find_type w type (Entity._components o)) as [c|] eqn:Hf; [|discriminate].
  destruct (component_store w !! c) as [item|] eqn:Hi; [|discriminate].
  injection Hg as Hold.
  pose proof (find_type_Some _ _ _ _ Hf) as [Hin Hty].
  rewrite (type_at_Some _ _ _ Hi) in Hty. injection Hty as Hty.
  eexists _, c. split; [rewrite (getComponent_run _ _ _ _ Ho Hv), Hf; reflexivity|].
  split.
  { unfold setComponentData, getComponents. repeat js_step.
    apply (setComponentData_loop_run _ _ _ _ _ _ _ _ Ho Hv Hf Hi). }
  set (w1 := with_entities _ _).
  assert (Ho1 : entity_store w1 !! this = Some (Entity.set_dirty (Bool true) o)).
  { subst w1. js_simpl. rewrite list_lookup_alter_eq, Ho. reflexivity. }
  assert (Hv1 : Forall (λ c, c < length (component_store w1)) (Entity._components o)).
  { subst w1. js_simpl. rewrite length_insert. exact Hv. }
  assert (Htypes : ∀ c', type_at w1 c' = type_at w c').
  { intros c'. unfold type_at. subst w1. js_simpl.
    rewrite list_lookup_insert. case_decide as Hc; [|reflexivity].
    destruct Hc as [-> _]. rewrite Hi. reflexivity. }
  pose proof (getData_run w1 this _ type Ho1 Hv1) as Hg1.
  cbn [Entity._components Entity.set_dirty] in Hg1.
  split.
  { rewrite Hg1, (find_type_ext w w1) by (intros; apply Htypes). rewrite Hf.
    subst w1. js_simpl.
    rewrite list_lookup_insert_eq by (apply lookup_lt_Some in Hi; exact Hi).
    cbn. rewrite Hold. reflexivity. }
  split.
  { intros T HT. pose proof (getData_run w1 this _ T Ho1 Hv1) as HgT.
    cbn [Entity._components Entity.set_dirty] in HgT.
    rewrite HgT, (getData_run _ _ _ T Ho Hv).
    rewrite (find_type_ext w w1) by (intros; apply Htypes).
    destruct (find_type w T (Entity._components o)) as [c'|] eqn:HfT; [|reflexivity].
    apply find_type_Some in HfT as [_ HtyT].
    assert (c ≠ c').
    { intros <-. rewrite (type_at_Some _ _ _ Hi) in HtyT. congruence. }
    subst w1. js_simpl. rewrite list_lookup_insert_ne by assumption.
    destruct (component_store w !! c'); reflexivity. }
  split; [unfold getComponents; repeat js_step; reflexivity|].
  split; [exact Htypes|].
  unfold dirty_at. rewrite Ho1. reflexivity.
Qed.

Lemma setComponentData_then_getData_witness :
  ∃ w1 component,
    getComponent 0 "position" scene = (Normal (Some component), scene) ∧
    setComponentData 0 "position" {[ "y" := Num 7 ]} scene
      = (Normal (Component_ref component), w1) ∧
    getData 0 "position" w1 = (Normal (Object ({[ "y" := Num 7 ]} ∪ {[ "x" := Num 1 ]})), w1).
Proof.
  destruct (setComponentData_then_getData scene 0 "position" {[ "y" := Num 7 ]}
              {[ "x" := Num 1 ]}) as (w1 & c & Hg & Hrun & Hd & _).
  - split; [eexists; reflexivity | repeat constructor].
  - reflexivity.
  - exists w1, c. auto.
Defined.

(** ** Queries *)

Lemma read_only_ret {A} (a : A) : read_only (mret a).
Proof. intros w. reflexivity. Qed.

Lemma read_only_bind {A B} (m : Js A) (f : A → Js B) :
  read_only m → (∀ a, read_only (f a)) → read_only (m ≫= f).
Proof.
  intros Hm Hf w. rewrite bind_eq. specialize (Hm w).
  destruct (m w) as [[a|e] w1]; cbn in Hm; subst w1; [apply Hf | reflexivity].
Qed.

Lemma read_only_get_entity e : read_only (get_entity e).
Proof. intros w. unfold get_entity. destruct (entity_store w !! e); reflexivity. Qed.

Lemma read_only_get_component c : read_only (get_component c).
Proof. intros w. unfold get_component. destruct (component_store w !! c); reflexivity. Qed.

Lemma read_only_Array_find target array prop : read_only (Array_find target array prop).
Proof.
  intros w. destruct (Array_find target array prop w) as [r w'] eqn:E.
  exact (Array_find_world _ _ _ _ _ _ E).
Qed.

Lemma read_only_read_components refs : read_only (read_components refs).
Proof.
  induction refs as [|ref refs IH]; cbn [read_components]; [apply read_only_ret|].
  apply read_only_bind; [apply read_only_get_component | intros item].
  apply read_only_bind; [exact IH | intros; apply read_only_ret].
Qed.

Lemma read_only_getComponentList this : read_only (getComponentList this).
Proof.
  unfold getComponentList. apply read_only_bind; [apply read_only_get_entity | intros o].
  induction (Entity._components o) as [|c cs IH]; cbn [foldr]; [apply read_only_ret|].
  unfold Component_getType.
  apply read_only_bind.
  { apply read_only_bind; [apply read_only_get_component | intros; apply read_only_ret]. }
  intros t. apply read_only_bind; [exact IH | intros; apply read_only_ret].
Qed.

Ltac reads :=
  repeat first
    [ apply read_only_ret | apply read_only_get_entity | apply read_only_get_component
    | apply read_only_Array_find | apply read_only_getComponentList
    | apply read_only_read_components
    | apply read_only_bind; [|intros ?]
    | match goal with
      | |- read_only (match ?x with _ => _ end) => destruct x
      end ].

(** X10. The calls the source marks read-only, [getComponent],
    [getComponentList], [getComponents], [getCurrentTask], [getName],
    [getTasks], [getType], [getUUID], [hasComponent] and [isDirty], leave
    the world exactly as it was, whatever they return.  [getData] and
    [print] change nothing but the console, to which each adds at most
    one line. *)
Theorem queries_change_nothing (this : loc) (w : World) :
  (∀ c, is_query c = true → (invoke this c w).2 = w) ∧
  (∀ T, (getData this T w).2 = w ∨
        ∃ line, (getData this T w).2 = with_console (console w ++ [line]) w) ∧
  ((print this w).2 = w ∨
   ∃ line, (print this w).2 = with_console (console w ++ [line]) w).
Proof.
  split; [|split].
  - intros c Hc. revert w.
    change (read_only (invoke this c)).
    destruct c; try discriminate; cbn [invoke]; unfold fmap, Js_fmap,
      getComponent, getItem, getComponents, getCurrentTask, getName, getTasks,
      getType, getUUID, hasComponent, hasItem, isDirty; reads.
  - intros T. unfold getData.
    assert (Hg : read_only (getComponent this T))
      by (unfold getComponent, getItem; reads).
    rewrite bind_eq. specialize (Hg w).
    destruct (getComponent this T w) as [[[c|]|e] w1]; cbn in Hg; subst w1.
    + left. revert w. change (read_only (data ← Component_getData c; mret (Object data))).
      unfold Component_getData. reads.
    + right. eexists. reflexivity.
    + left. reflexivity.
  - unfold print. rewrite bind_eq. unfold get_entity.
    destruct (entity_store w !! this) as [o|]; [|left; reflexivity].
    rewrite bind_eq. pose proof (read_only_read_components (Entity._components o) w) as Hr.
    destruct (read_components (Entity._components o) w) as [[items|e] w1];
      cbn in Hr; subst w1; [|left; reflexivity].
    right. eexists. reflexivity.
Qed.

Lemma queries_change_nothing_witness :
  (invoke 0 (call_hasComponent "armor") scene).2 = scene.
Proof. exact (proj1 (queries_change_nothing 0 scene) (call_hasComponent "armor") eq_refl). Defined.

(** ** The Components of a new Entity *)

Lemma find_type_alloc w T cs item :
  Forall (λ c, c < length (component_store w)) cs →
  find_type (with_components (component_store w ++ [item]) w) T cs = find_type w T cs.
Proof.
  intros Hv. apply find_type_ext. intros c Hc. unfold type_at. js_simpl.
  rewrite Forall_forall in Hv. rewrite lookup_app_l by (apply Hv, Hc). reflexivity.
Qed.

(** The [forEach] of the constructor, by type: a type the entity had keeps
    its Component; a new type gets the Component built from the first
    entry that has it; an entry is attached or a warning is logged. *)
Lemma constructor_forEach_first this comps : ∀ w o,
  entity_store w !! this = Some o →
  unique_types w this →
  component_store
    (forEach comps (λ data,
       component ← new_Component data;
       _addComponent this component;;
       mret ()) w).2
  = component_store w ++ (component_built <$> comps) ∧
  (∀ T,
     find_type
       (forEach comps (λ data,
          component ← new_Component data;
          _addComponent this component;;
          mret ()) w).2 T
       (components_of
          (forEach comps (λ data,
             component ← new_Component data;
             _addComponent this component;;
             mret ()) w).2 this)
     = match find_type w T (Entity._components o) with
       | Some c => Some c
       | None => (λ p, length (component_store w) + p.1)
                   <$> list_find (λ d, Config.ctype d = T) comps
       end) ∧
  length
    (console
       (forEach comps (λ data,
          component ← new_Component data;
          _addComponent this component;;
          mret ()) w).2)
  + length
      (components_of
         (forEach comps (λ data,
            component ← new_Component data;
            _addComponent this component;;
            mret ()) w).2 this)
  = length (console w) + length (Entity._components o) + length comps.
Proof.
  induction comps as [|data comps IH]; intros w o Ho Hu.
  - cbn [forEach]. rewrite ret_eq. cbn [snd]. rewrite (components_of_lookup _ _ _ Ho).
    split; [rewrite app_nil_r; reflexivity|]. split; [|cbn; lia].
    intros T. destruct (find_type w T (Entity._components o)); reflexivity.
  - set (item := component_built data).
    set (w1 := with_components (component_store w ++ [item]) w).
    assert (Hu1 : unique_types w1 this) by apply unique_types_alloc, Hu.
    assert (Ho1 : entity_store w1 !! this = Some o) by exact Ho.
    assert (Hc1 : component_store w1 !! length (component_store w) = Some item)
      by (apply list_lookup_middle; reflexivity).
    pose proof Hu as [Hv _]. apply valid_lookup in Hv as (o' & Ho' & Hv).
    rewrite Ho in Ho'. injection Ho' as <-.
    pose proof Hu1 as [Hv1 _]. apply valid_lookup in Hv1 as (o' & Ho' & Hv1).
    rewrite Ho1 in Ho'. injection Ho' as <-.
    pose proof (_addComponent_unique w1 this (length (component_store w)) Hu1) as Hu2.
    pose proof (_addComponent_run _ _ _ _ _ Ho1 Hv1 Hc1) as Hadd.
    assert (Hstep :
      forEach (data :: comps) (λ data,
        component ← new_Component data;
        _addComponent this component;;
        mret ()) w
      = forEach comps (λ data,
          component ← new_Component data;
          _addComponent this component;;
          mret ()) (_addComponent this (length (component_store w)) w1).2).
    { cbn [forEach]. rewrite !bind_assoc.
      erewrite bind_normal by reflexivity. rewrite bind_assoc, bind_eq.
      change (with_components _ w) with w1. rewrite Hadd.
      destruct (find_type w1 (Component._type item) (Entity._components o));
        rewrite bind_eq, ret_eq; reflexivity. }
    rewrite Hstep. clear Hstep.
    assert (Hfw1 : ∀ T, find_type w1 T (Entity._components o)
                        = find_type w T (Entity._components o))
      by (intros; apply find_type_alloc, Hv).
    rewrite Hadd in *. rewrite Hfw1 in *.
    change (Component._type item) with (Config.ctype data) in *.
    destruct (find_type w (Config.ctype data) (Entity._components o)) as [c0|] eqn:Hf0;
      cbn [fst snd] in *.
    + match type of Hu2 with unique_types ?x _ => set (w2 := x) in * end.
      destruct (IH w2 o Ho1 Hu2) as (Hcs & Hfind & Hlen).
      split; [|split].
      * rewrite Hcs. subst w2 w1. js_simpl. rewrite <- app_assoc. reflexivity.
      * intros T. rewrite Hfind.
        rewrite (find_type_ext w1 w2) by (intros; reflexivity). rewrite Hfw1.
        destruct (find_type w T (Entity._components o)) eqn:HfT; [reflexivity|].
        cbn [list_find]. rewrite decide_False by (cbn; intros <-; congruence).
        subst w2 w1. js_simpl. rewrite length_app. cbn.
        destruct (list_find _ comps) as [[i d]|]; cbn; [f_equal; lia | reflexivity].
      * rewrite Hlen. subst w2. js_simpl. rewrite length_app. cbn. lia.
    + match type of Hu2 with unique_types ?x _ => set (w2 := x) in * end.
      assert (Ho2 : entity_store w2 !! this
                    = Some (Entity.set_dirty (Bool true)
                              (Entity.set_components
                                 (Entity._components o ++ [length (component_store w)]) o))).
      { subst w2. js_simpl. rewrite !list_lookup_alter_eq, Ho1. reflexivity. }
      destruct (IH w2 _ Ho2 Hu2) as (Hcs & Hfind & Hlen).
      cbn [Entity._components Entity.set_dirty Entity.set_components] in *.
      split; [|split].
      * rewrite Hcs. subst w2 w1. js_simpl. rewrite <- app_assoc. reflexivity.
      * intros T. rewrite Hfind. rewrite find_type_app.
        rewrite !(find_type_ext w1 w2) by (intros; reflexivity). rewrite Hfw1.
        destruct (find_type w T (Entity._components o)) eqn:HfT; [reflexivity|].
        cbn [find_type list_find]. rewrite (type_at_Some _ _ _ Hc1).
        subst w2 w1. js_simpl. rewrite length_app. cbn.
        destruct (decide (Config.ctype data = T)) as [->|Hne].
        -- rewrite bool_decide_eq_true_2 by reflexivity. cbn. f_equal. lia.
        -- rewrite bool_decide_eq_false_2 by congruence.
           destruct (list_find _ comps) as [[i d]|]; cbn; [f_equal; lia | reflexivity].
      * rewrite Hlen. subst w2. js_simpl. rewrite length_app. cbn. lia.
Qed.

Lemma new_Entity_components C config comps w :
  Config.components config = Some comps →
  component_store (new_Entity C (Some config) w).2
  = component_store w ++ (component_built <$> comps) ∧
  (∀ T,
     find_type (new_Entity C (Some config) w).2 T
       (components_of (new_Entity C (Some config) w).2 (length (entity_store w)))
     = (λ p, length (component_store w) + p.1)
         <$> list_find (λ d, Config.ctype d = T) comps) ∧
  length (console (new_Entity C (Some config) w).2)
  + length (components_of (new_Entity C (Some config) w).2 (length (entity_store w)))
  = length (console w) + length comps.
Proof.
  intros Hcomps. unfold new_Entity, constructor. rewrite Hcomps.
  erewrite bind_normal by reflexivity.
  rewrite !bind_assoc.
  set (this := length (entity_store w)).
  assert (Hloop : ∀ w0 uuid,
    entity_store w0 = entity_store w →
    component_store w0 = component_store w →
    console w0 = console w →
    ∀ wf,
      wf = (((assign this (Entity.set_uuid uuid) ≫= λ _,
              assign this (Entity.set_type (or_else (Config.type config) (Str "no-type"))) ≫= λ _,
              assign this (Entity.set_name (or_else (Config.name config) (Str "No Name"))) ≫= λ _,
              assign this (Entity.set_components []) ≫= λ _,
              forEach comps (λ data,
                component ← new_Component data;
                _addComponent this component;;
                mret ()) ≫= λ _,
              assign this (Entity.set_tasks (default [] (Config.tasks config))) ≫= λ _,
              assign this (Entity.set_tasksDirty (Bool false))) ≫= λ _,
             assign this (Entity.set_dirty (Bool false)) ≫= λ _,
             mret this)
              (with_entities (entity_store w0 ++ [Entity.blank C]) w0)).2 →
      component_store wf = component_store w ++ (component_built <$> comps) ∧
      (∀ T, find_type wf T (components_of wf this)
            = (λ p, length (component_store w) + p.1)
                <$> list_find (λ d, Config.ctype d = T) comps) ∧
      length (console wf) + length (components_of wf this)
      = length (console w) + length comps).
  { intros w0 uuid Hes Hcs Hk wf Hwf.
    set (o1 := Entity.set_components []
                 (Entity.set_name (or_else (Config.name config) (Str "No Name"))
                    (Entity.set_type (or_else (Config.type config) (Str "no-type"))
                       (Entity.set_uuid uuid (Entity.blank C))))).
    set (w1 := with_entities (entity_store w ++ [o1]) w0).
    assert (Ho1 : entity_store w1 !! this = Some o1)
      by (apply list_lookup_middle; reflexivity).
    assert (Hu1 : unique_types w1 this).
    { unfold unique_types, valid, components_of. rewrite Ho1. cbn.
      split; [split; [eauto | constructor] | constructor]. }
    destruct (constructor_forEach this comps w1 o1 Ho1 Hu1)
      as (w2 & cs & d & Hrun & Hes2 & _).
    destruct (constructor_forEach_first this comps w1 o1 Ho1 Hu1) as (Hc & Hf & Hl).
    rewrite Hrun in Hc, Hf, Hl. cbn [snd] in Hc, Hf, Hl.
    assert (Ho2 : entity_store w2 !! this
                  = Some (Entity.set_dirty d (Entity.set_components cs o1))).
    { rewrite Hes2, list_lookup_alter_eq, Ho1. reflexivity. }
    rewrite Hes in Hwf.
    assert (Hb : (entity_store w ++ [Entity.blank C]) !! this = Some (Entity.blank C))
      by (apply list_lookup_middle; reflexivity).
    revert Hwf. repeat js_step. subst this. rewrite !alter_snoc.
    erewrite bind_normal by exact Hrun.
    repeat js_step. cbn [snd]. intros ->.
    unfold components_of in *. js_simpl.
    rewrite !list_lookup_alter_eq, Ho2 in *. cbn in Hf, Hl |- *.
    split; [rewrite Hc; subst w1; js_simpl; rewrite Hcs; reflexivity|].
    split.
    - intros T. erewrite find_type_ext; [rewrite Hf|intros; reflexivity].
      subst w1. js_simpl. rewrite Hcs. reflexivity.
    - rewrite Hl. subst w1. js_simpl. rewrite Hk. lia. }
  destruct (truthy (Config.uuid config)).
  - rewrite bind_eq, ret_eq. apply (Hloop w (Config.uuid config)); reflexivity.
  - erewrite bind_normal by reflexivity.
    apply (Hloop (with_drawn (S (drawn w)) w) (Str (uuid_v4 w (drawn w)))); reflexivity.
Qed.

(** X11. When the configuration record names a type more than once,
    [new Entity( config )] keeps the first entry of each type: the entity
    has exactly the types of the record, and [getData] of a type is the
    data of the first entry with that type.  A Component is built for
    every entry, attached or not, and each entry that is not attached
    leaves one warning on the console; the entities and Components that
    existed are untouched. *)
Theorem constructor_keeps_first_of_each_type (C : string) (config : Config.t)
    (comps : list Config.component) (w : World) :
  Config.components config = Some comps →
  ∃ w',
    new_Entity C (Some config) w = (Normal (length (entity_store w)), w') ∧
    (∀ T, hasComponent (length (entity_store w)) T w'
          = (Normal (bool_decide (T ∈ Config.ctype <$> comps)), w')) ∧
    (∀ T i d,
       list_find (λ d, Config.ctype d = T) comps = Some (i, d) →
       getData (length (entity_store w)) T w' = (Normal (Object (Config.cdata d)), w')) ∧
    component_store w' = component_store w ++ (component_built <$> comps) ∧
    length (console w') + length (components_of w' (length (entity_store w)))
    = length (console w) + length comps ∧
    (∀ x, x < length (entity_store w) → entity_store w' !! x = entity_store w !! x).
Proof.
  intros Hc.
  destruct (new_Entity_from_config C config comps w Hc) as (w' & cs & Hrun & Hes & Hu & _).
  destruct (new_Entity_components C config comps w Hc) as (Hcs & Hf & Hl).
  rewrite Hrun in Hcs, Hf, Hl. cbn [snd] in Hcs, Hf, Hl.
  exists w'. split; [exact Hrun|].
  destruct Hu as [Hv _]. apply valid_lookup in Hv as (o & Ho & Hv).
  rewrite (components_of_lookup _ _ _ Ho) in *.
  split; [|split; [|split; [exact Hcs | split; [exact Hl|]]]].
  - intros T. rewrite (hasComponent_run _ _ _ _ Ho Hv), Hf. do 2 f_equal.
    apply bool_decide_ext. rewrite fmap_is_Some. split.
    + intros [[i d] Hfind]. apply list_find_Some in Hfind as (Hi & <- & _).
      apply list_elem_of_fmap_2. eapply list_elem_of_lookup_2. exact Hi.
    + intros Hin. apply list_elem_of_fmap in Hin as (d & -> & Hd).
      eapply list_find_elem_of; [exact Hd | reflexivity].
  - intros T i d Hfind. rewrite (getData_run _ _ _ _ Ho Hv), Hf, Hfind. cbn.
    apply list_find_Some in Hfind as (Hi & _ & _).
    rewrite Hcs, lookup_app_r by lia.
    replace (length (component_store w) + i - length (component_store w)) with i by lia.
    rewrite list_lookup_fmap, Hi. reflexivity.
  - intros x Hx. rewrite Hes. apply lookup_app_l. exact Hx.
Qed.

Lemma constructor_keeps_first_of_each_type_witness :
  ∃ w',
    new_Entity "Entity"
      (Some {| Config.uuid := Undefined; Config.type := Undefined; Config.name := Undefined;
               Config.components :=
                 Some [position; health;
                       {| Config.ctype := "position"; Config.cdata := {[ "x" := Num 5 ]} |}];
               Config.tasks := None |}) empty_world = (Normal 0, w') ∧
    getData 0 "position" w' = (Normal (Object {[ "x" := Num 1 ]}), w') ∧
    length (component_store w') = 3.
Proof.
  destruct (constructor_keeps_first_of_each_type "Entity"
              {| Config.uuid := Undefined; Config.type := Undefined; Config.name := Undefined;
                 Config.components :=
                   Some [position; health;
                         {| Config.ctype := "position"; Config.cdata := {[ "x" := Num 5 ]} |}];
                 Config.tasks := None |}
              _ empty_world eq_refl) as (w' & Hrun & _ & Hd & Hcs & _).
  exists w'. split; [exact Hrun|]. split.
  - exact (Hd "position" 0 position eq_refl).
  - rewrite Hcs. reflexivity.
Defined.

(** ** What [copy] and [clone()] take from the source *)

Lemma insert_snoc {A} (l : list A) x y : <[length l := y]> (l ++ [x]) = l ++ [y].
Proof.
  rewrite insert_app_r_alt by lia. rewrite Nat.sub_diag. reflexivity.
Qed.

(** X12. [this.copy( source )] takes the type, the name and the
    Components of [source] and nothing else: the uuid, the tasks and
    [tasksDirty] of [this] stay as they were, whether or not [source] has
    tasks; every other entity, every Component that existed, the console
    and the uuid generator are untouched. *)
Theorem copy_keeps_uuid_and_tasks (w : World) (this source : loc) (o : Entity.obj) :
  entity_store w !! this = Some o →
  valid w source →
  ∃ w1 o1,
    copy this source w = (Normal (Component_array (Entity._components o1)), w1) ∧
    entity_store w1 !! this = Some o1 ∧
    Entity._uuid o1 = Entity._uuid o ∧
    Entity._tasks o1 = Entity._tasks o ∧
    Entity.tasksDirty o1 = Entity.tasksDirty o ∧
    Entity.class o1 = Entity.class o ∧
    (∀ x, x ≠ this → entity_store w1 !! x = entity_store w !! x) ∧
    (∀ c, c < length (component_store w) →
          component_store w1 !! c = component_store w !! c) ∧
    console w1 = console w ∧ drawn w1 = drawn w.
Proof.
  intros Ho Hv. apply valid_lookup in Hv as (a & Ha & Hv).
  pose proof (copy_run w this source o a Ho Ha) as Hrun.
  assert (Hcs : Forall (λ c, c < length (component_store w))
                  (if decide (this = source) then [] else Entity._components a))
    by (destruct (decide _); [constructor | exact Hv]).
  specialize (Hrun Hcs).
  rewrite Hrun. eexists _, (Entity.Build_obj _ _ _ _ _ _ _ _).
  split; [reflexivity|]. js_simpl.
  split; [apply list_lookup_insert_eq; apply lookup_lt_Some in Ho; exact Ho|].
  do 4 (split; [reflexivity|]).
  split; [intros x Hx; apply list_lookup_insert_ne; congruence|].
  split; [intros c Hc; apply lookup_app_l, Hc|].
  split; reflexivity.
Qed.

Lemma copy_keeps_uuid_and_tasks_witness :
  ∃ w1 o1,
    copy 1 0 two_entities = (Normal (Component_array (Entity._components o1)), w1) ∧
    entity_store w1 !! 1 = Some o1 ∧
    Entity._uuid o1 = Str "uuid-0" ∧
    Entity._tasks o1 = [].
Proof.
  destruct (copy_keeps_uuid_and_tasks two_entities 1 0
              {| Entity.class := "Entity"; Entity._uuid := Str "uuid-0";
                 Entity._type := Str "no-type"; Entity._name := Str "No Name";
                 Entity._components := [2]; Entity._tasks := [];
                 Entity.tasksDirty := Bool false; Entity._dirty := Bool false |}
              eq_refl) as (w1 & o1 & Hrun & Ho & Hu & Ht & _).
  - split; [eexists; reflexivity | repeat constructor].
  - exists w1, o1. auto.
Defined.

(** X13. [clone()] leaves the entity it is called on and every other
    entity as they were, the dirty flag included; the entity it builds
    comes last in the store, with the class, type and name of the
    original, a newly generated uuid, one new Component per Component of
    the original, no tasks even when the original has some,
    [tasksDirty] unassigned and the dirty flag set. *)
Theorem clone_builds (w : World) (this : loc) (o : Entity.obj) :
  entity_store w !! this = Some o →
  Forall (λ c, c < length (component_store w)) (Entity._components o) →
  ∃ w1,
    clone this w
      = (Normal (Component_array
                   (seq (length (component_store w)) (length (Entity._components o)))),
         w1) ∧
    entity_store w1
      = entity_store w ++
          [{| Entity.class := Entity.class o;
              Entity._uuid := Str (uuid_v4 w (drawn w));
              Entity._type := Entity._type o;
              Entity._name := Entity._name o;
              Entity._components :=
                seq (length (component_store w)) (length (Entity._components o));
              Entity._tasks := [];
              Entity.tasksDirty := Undefined;
              Entity._dirty := Bool true |}] ∧
    component_store w1
      = component_store w ++ cells (component_store w) (Entity._components o) ∧
    drawn w1 = S (drawn w) ∧
    console w1 = console w.
Proof.
  intros Ho Hv. unfold clone.
  erewrite bind_normal by (apply get_entity_run, Ho).
  erewrite bind_normal by apply new_Entity_fresh.
  assert (Hne : length (entity_store w) ≠ this)
    by (apply lookup_lt_Some in Ho; lia).
  erewrite copy_run;
    [ | js_simpl; apply list_lookup_middle; reflexivity
      | js_simpl; rewrite lookup_app_l by (apply lookup_lt_Some in Ho; exact Ho); exact Ho
      | rewrite decide_False by exact Hne; exact Hv ].
  rewrite decide_False by exact Hne. js_simpl.
  eexists. split; [reflexivity|]. js_simpl.
  split; [apply insert_snoc|]. repeat split; reflexivity.
Qed.

Lemma clone_builds_witness :
  ∃ w1,
    clone 0 scene = (Normal (Component_array [2; 3]), w1) ∧
    entity_store w1
      = [tank;
         {| Entity.class := "Entity"; Entity._uuid := Str "uuid-0";
            Entity._type := Str "unit"; Entity._name := Str "Tank";
            Entity._components := [2; 3]; Entity._tasks := [];
            Entity.tasksDirty := Undefined; Entity._dirty := Bool true |}].
Proof.
  destruct (clone_builds scene 0 tank eq_refl) as (w1 & Hrun & Hes & _).
  - repeat constructor.
  - exists w1. split; [exact Hrun | exact Hes].
Defined.

(** ** Uniqueness of types, for every entity at once *)

Lemma type_at_lt w c : c < length (component_store w) ↔ is_Some (type_at w c).
Proof. unfold type_at. rewrite fmap_is_Some. symmetry. apply lookup_lt_is_Some. Qed.

Lemma length_cells σ cs :
  Forall (λ c, c < length σ) cs → length (cells σ cs) = length cs.
Proof.
  induction 1 as [|c cs Hc _ IH]; [reflexivity|].
  apply lookup_lt_is_Some_2 in Hc as [item Hi].
  rewrite (cells_cons _ _ _ _ Hi). cbn. rewrite IH. reflexivity.
Qed.

(** The types of the Components that were appended to a store. *)
Lemma types_of_new w1 σ k :
  component_store w1 = σ ++ k →
  type_at w1 <$> seq (length σ) (length k) = Some <$> (Component._type <$> k).
Proof.
  intros Hs. apply list_eq. intros i. rewrite !list_lookup_fmap.
  destruct (decide (i < length k)) as [Hi|Hi].
  - rewrite lookup_seq_lt by exact Hi. cbn. unfold type_at. rewrite Hs.
    rewrite lookup_app_r by lia.
    replace (length σ + i - length σ) with i by lia.
    apply lookup_lt_is_Some_2 in Hi as [item ->]. reflexivity.
  - rewrite lookup_seq_ge by lia. rewrite lookup_ge_None_2 by lia. reflexivity.
Qed.

(** Components appended to the store change nothing for an entity that
    is left alone. *)
Lemma unique_types_grow w w' x k :
  entity_store w' !! x = entity_store w !! x →
  component_store w' = component_store w ++ k →
  unique_types w x → unique_types w' x.
Proof.
  intros He Hs [[Ha Hv] Hnd]. unfold unique_types, valid, components_of in *.
  rewrite He. split; [split; [exact Ha|]|].
  - eapply Forall_impl; [exact Hv|]. intros c Hc. cbn beta in *.
    rewrite Hs, length_app. lia.
  - erewrite <- (proj1 (Forall_fmap_ext _ _ _)); [exact Hnd|].
    eapply Forall_impl; [exact Hv|]. intros c Hc. unfold type_at. rewrite Hs.
    rewrite lookup_app_l by exact Hc. reflexivity.
Qed.

(** A new entity that is unique itself, and new Components, keep every
    entity unique. *)
Lemma all_unique_new_entity w w' o' k :
  entity_store w' = entity_store w ++ [o'] →
  component_store w' = component_store w ++ k →
  unique_types w' (length (entity_store w)) →
  all_unique w → all_unique w'.
Proof.
  intros He Hs Hnew Hall x Hx.
  apply lookup_lt_is_Some in Hx. rewrite He, length_app in Hx. cbn in Hx.
  destruct (decide (x = length (entity_store w))) as [->|Hne]; [exact Hnew|].
  assert (Hlt : x < length (entity_store w)) by lia.
  apply (unique_types_grow w w' x k).
  - rewrite He. apply lookup_app_l, Hlt.
  - exact Hs.
  - apply Hall, lookup_lt_is_Some, Hlt.
Qed.

Lemma unique_types_no_components w x o :
  entity_store w !! x = Some o → Entity._components o = [] → unique_types w x.
Proof.
  intros Ho Hc. unfold unique_types, valid. rewrite (components_of_lookup _ _ _ Ho), Hc.
  split; [split; [eauto | constructor] | constructor].
Qed.

(** The constructor that throws leaves an entity without Components. *)
Lemma new_Entity_thrown_stores C config w :
  Config.components config = None →
  ∃ o',
    entity_store (new_Entity C (Some config) w).2 = entity_store w ++ [o'] ∧
    Entity._components o' = [] ∧
    component_store (new_Entity C (Some config) w).2 = component_store w.
Proof.
  destruct config as [uuid type name comps tasks]. cbn. intros ->.
  unfold new_Entity, constructor.
  erewrite bind_normal by reflexivity.
  cbn [Config.uuid Config.type Config.name Config.components Config.tasks].
  destruct (truthy uuid).
  - repeat js_step. eexists. js_simpl. rewrite !alter_snoc.
    split; [reflexivity | split; reflexivity].
  - rewrite bind_assoc. erewrite bind_normal by reflexivity.
    repeat js_step. eexists. js_simpl. rewrite !alter_snoc.
    split; [reflexivity | split; reflexivity].
Qed.

Lemma new_Entity_all_unique C config w :
  all_unique w → all_unique (new_Entity C config w).2.
Proof.
  intros Hall. destruct config as [config|].
  - destruct (Config.components config) as [comps|] eqn:Hc.
    + destruct (new_Entity_components C config comps w Hc) as (Hs & _).
      destruct (new_Entity_from_config C config comps w Hc) as (w' & cs & Hrun & He & Hu & _).
      rewrite Hrun in *. cbn [snd] in *.
      exact (all_unique_new_entity w w' _ _ He Hs Hu Hall).
    + destruct (new_Entity_thrown_stores C config w Hc) as (o' & He & Ho' & Hs).
      apply (all_unique_new_entity w _ o' []); [exact He | | | exact Hall].
      * rewrite Hs, app_nil_r. reflexivity.
      * apply (unique_types_no_components _ _ o'); [|exact Ho'].
        rewrite He. apply list_lookup_middle. reflexivity.
  - rewrite new_Entity_fresh. cbn [snd].
    eapply (all_unique_new_entity w _ _ []); [reflexivity | | | exact Hall].
    + js_simpl. rewrite app_nil_r. reflexivity.
    + eapply unique_types_no_components;
        [js_simpl; apply list_lookup_middle; reflexivity | reflexivity].
Qed.

Lemma copy_all_unique this source w :
  all_unique w → all_unique (copy this source w).2.
Proof.
  intros Hall.
  destruct (entity_store w !! source) as [a|] eqn:Ha.
  2: { unfold copy, getType. rewrite !bind_assoc, bind_eq. unfold get_entity.
       rewrite Ha. exact Hall. }
  destruct (entity_store w !! this) as [o|] eqn:Ho.
  2: { unfold copy, getType. rewrite !bind_assoc.
       erewrite bind_normal by (apply get_entity_run, Ha).
       rewrite bind_eq, ret_eq, bind_eq. unfold assign. rewrite Ho. exact Hall. }
  assert (Hsrc : unique_types w source) by (apply Hall; eauto).
  destruct Hsrc as [Hv Hnd]. apply valid_lookup in Hv as (a' & Ha' & Hv).
  rewrite Ha in Ha'. injection Ha' as <-.
  rewrite (components_of_lookup _ _ _ Ha) in Hnd.
  set (cs := if decide (this = source) then [] else Entity._components a).
  assert (Hcs : Forall (λ c, c < length (component_store w)) cs)
    by (subst cs; destruct (decide _); [constructor | exact Hv]).
  assert (Hnd' : NoDup (type_at w <$> cs))
    by (subst cs; destruct (decide _); [constructor | exact Hnd]).
  rewrite (copy_run w this source o a Ho Ha Hcs). fold cs. cbn [snd].
  intros x Hx. apply lookup_lt_is_Some in Hx. js_simpl.
  rewrite length_insert in Hx.
  destruct (decide (x = this)) as [->|Hne].
  - unfold unique_types, valid, components_of. js_simpl.
    rewrite list_lookup_insert_eq by exact Hx. cbn.
    split; [split; [eauto|]|].
    + apply Forall_seq. intros i Hi.
      rewrite length_app, (length_cells _ _ Hcs). lia.
    + rewrite <- (length_cells _ _ Hcs).
      erewrite types_of_new by reflexivity.
      rewrite <- types_of_cells by exact Hcs. exact Hnd'.
  - eapply (unique_types_grow w); [ | reflexivity | apply Hall, lookup_lt_is_Some, Hx].
    js_simpl. apply list_lookup_insert_ne. congruence.
Qed.

Lemma clone_all_unique this w : all_unique w → all_unique (clone this w).2.
Proof.
  intros Hall. unfold clone.
  destruct (entity_store w !! this) as [o|] eqn:Ho.
  - erewrite bind_normal by (apply get_entity_run, Ho).
    rewrite bind_eq.
    pose proof (new_Entity_all_unique (Entity.class o) None w Hall) as Hnew.
    destruct (new_Entity (Entity.class o) None w) as [[fresh|e] w0]; [|exact Hnew].
    apply copy_all_unique, Hnew.
  - rewrite bind_eq. unfold get_entity. rewrite Ho. exact Hall.
Qed.

Section keeps_structure.
Context (P : loc → Prop).

Lemma keeps_structure_read_only {A} (m : Js A) : read_only m → keeps_structure P m.
Proof.
  intros H w. specialize (H w). destruct (m w) as [r w']. cbn [snd] in *. subst w'.
  split; [|split]; intros; reflexivity.
Qed.

Lemma keeps_structure_ret {A} (a : A) : keeps_structure P (mret a).
Proof. apply keeps_structure_read_only, read_only_ret. Qed.

Lemma keeps_structure_bind {A B} (m : Js A) (f : A → Js B) :
  keeps_structure P m → (∀ a, keeps_structure P (f a)) → keeps_structure P (m ≫= f).
Proof.
  intros Hm Hf w. rewrite bind_eq. specialize (Hm w).
  destruct (m w) as [[a|e] w1]; [|exact Hm].
  cbn [snd] in Hm. destruct Hm as (Hl & Ht & Hc).
  destruct (Hf a w1) as (Hl' & Ht' & Hc').
  split; [congruence|]. split.
  - intros c. rewrite Ht'. apply Ht.
  - intros x Hx. rewrite Hc' by exact Hx. apply Hc, Hx.
Qed.

Lemma keeps_structure_fmap {A B} (g : A → B) (m : Js A) :
  keeps_structure P m → keeps_structure P (g <$> m).
Proof.
  intros Hm. apply keeps_structure_bind; [exact Hm | intros; apply keeps_structure_ret].
Qed.

Lemma keeps_structure_get_entity e : keeps_structure P (get_entity e).
Proof. apply keeps_structure_read_only, read_only_get_entity. Qed.

Lemma keeps_structure_get_component c : keeps_structure P (get_component c).
Proof. apply keeps_structure_read_only, read_only_get_component. Qed.

Lemma keeps_structure_Array_find target array prop :
  keeps_structure P (Array_find target array prop).
Proof. apply keeps_structure_read_only, read_only_Array_find. Qed.

Lemma keeps_structure_read_components refs : keeps_structure P (read_components refs).
Proof. apply keeps_structure_read_only, read_only_read_components. Qed.

Lemma keeps_structure_getComponentList this : keeps_structure P (getComponentList this).
Proof. apply keeps_structure_read_only, read_only_getComponentList. Qed.

Lemma keeps_structure_console_warn pieces : keeps_structure P (console_warn pieces).
Proof. intros w. split; [|split]; intros; reflexivity. Qed.

Lemma keeps_structure_console_info m : keeps_structure P (console_info m).
Proof. intros w. split; [|split]; intros; reflexivity. Qed.

(** An assignment that leaves the Components as they are, or is made to
    an entity outside [P]. *)
Lemma keeps_structure_assign e f :
  (P e → ∀ o, Entity._components (f o) = Entity._components o) →
  keeps_structure P (assign e f).
Proof.
  intros Hf w. unfold assign.
  destruct (entity_store w !! e) as [o|] eqn:Ho;
    [|split; [|split]; intros; reflexivity].
  cbn [snd]. js_simpl. split; [apply length_alter|]. split; [reflexivity|].
  intros x Hx. unfold components_of. js_simpl. rewrite list_lookup_alter.
  case_decide as Hex; [|reflexivity].
  subst x. rewrite Ho. cbn. apply Hf, Hx.
Qed.

(** [apply] changes the data of a Component, not its type. *)
Lemma keeps_structure_Component_apply c data :
  keeps_structure P (Component_apply c data).
Proof.
  intros w. unfold Component_apply. rewrite bind_eq. unfold get_component, put_component.
  destruct (component_store w !! c) as [item|] eqn:Hc;
    [|split; [|split]; intros; reflexivity].
  rewrite Hc. cbn [snd]. split; [reflexivity|]. split; [|reflexivity].
  intros c'. unfold type_at. js_simpl.
  destruct (decide (c' = c)) as [->|Hne].
  - rewrite list_lookup_insert_eq by (apply lookup_lt_Some in Hc; exact Hc).
    rewrite Hc. reflexivity.
  - rewrite list_lookup_insert_ne by congruence. reflexivity.
Qed.

End keeps_structure.

Create HintDb keeps_structure.

#[local] Hint Resolve keeps_structure_ret keeps_structure_get_entity
  keeps_structure_get_component keeps_structure_Array_find
  keeps_structure_read_components keeps_structure_getComponentList
  keeps_structure_console_warn keeps_structure_console_info
  keeps_structure_Component_apply
  : keeps_structure.

Ltac structure :=
  repeat first
    [ solve [ auto with keeps_structure ]
    | apply keeps_structure_bind; [|intros ?]
    | apply keeps_structure_fmap
    | apply keeps_structure_assign; intros ? ?;
        first [ reflexivity | exfalso; auto ]
    | match goal with
      | |- keeps_structure _ (match ?x with _ => _ end) => destruct x
      end ].

Lemma keeps_structure__addComponent this component :
  keeps_structure (λ x, x ≠ this) (_addComponent this component).
Proof.
  unfold _addComponent, Component_getType, hasComponent, hasItem, getUUID,
    push_component, getComponents.
  structure.
Qed.

Lemma keeps_structure__removeComponent this type :
  keeps_structure (λ x, x ≠ this) (_removeComponent this type).
Proof.
  unfold _removeComponent, getComponent, getItem, getComponents. structure.
Qed.

Lemma keeps_structure_setDirty P this dirty : keeps_structure P (setDirty this dirty).
Proof. unfold setDirty, isDirty. structure. Qed.

Lemma keeps_structure_setComponentData_loop P this components type data :
  keeps_structure P (setComponentData_loop this components type data).
Proof.
  pose proof (keeps_structure_setDirty P this None).
  induction components as [|c cs IH]; cbn [setComponentData_loop]; [structure|].
  unfold Component_getType. apply keeps_structure_bind; [structure | intros t].
  destruct (String.eqb t type); [structure | exact IH].
Qed.

Lemma keeps_structure_unique {A} P (m : Js A) w x :
  keeps_structure P m → P x → unique_types w x → unique_types (m w).2 x.
Proof.
  intros Hm Hx [[Ha Hv] Hnd]. destruct (Hm w) as (Hl & Ht & Hc).
  unfold unique_types, valid. rewrite Hc by exact Hx.
  split; [split|].
  - apply lookup_lt_is_Some. rewrite Hl. apply lookup_lt_is_Some, Ha.
  - eapply Forall_impl; [exact Hv|]. intros c Hlt. cbn beta in *.
    apply type_at_lt. rewrite Ht. apply type_at_lt, Hlt.
  - erewrite (proj1 (Forall_fmap_ext _ _ _)); [exact Hnd|].
    apply Forall_forall. intros c _. apply Ht.
Qed.

(** A call that keeps the structure of the other entities and the
    uniqueness of its own keeps every entity unique. *)
Lemma all_unique_call {A} this (m : Js A) w :
  keeps_structure (λ x, x ≠ this) m →
  (unique_types w this → unique_types (m w).2 this) →
  all_unique w → all_unique (m w).2.
Proof.
  intros Hm Hthis Hall x Hx.
  assert (Hx' : is_Some (entity_store w !! x)).
  { apply lookup_lt_is_Some. rewrite <- (proj1 (Hm w)). apply lookup_lt_is_Some, Hx. }
  destruct (decide (x = this)) as [->|Hne].
  - apply Hthis, Hall, Hx'.
  - apply (keeps_structure_unique (λ x, x ≠ this)); [exact Hm | exact Hne | apply Hall, Hx'].
Qed.

Lemma all_unique_keeps {A} (m : Js A) w :
  keeps_structure (λ _, True) m → all_unique w → all_unique (m w).2.
Proof.
  intros Hm Hall x Hx. apply (keeps_structure_unique (λ _, True)); [exact Hm | exact I|].
  apply Hall, lookup_lt_is_Some. rewrite <- (proj1 (Hm w)). apply lookup_lt_is_Some, Hx.
Qed.

Lemma invoke_all_unique this c w : all_unique w → all_unique (invoke this c w).2.
Proof.
  pose proof (keeps_structure_setDirty (λ _, True) this) as Hs.
  pose proof (keeps_structure_setComponentData_loop (λ _, True) this) as Hl.
  destruct c; cbn [invoke];
    [ apply (all_unique_call this);
        [apply keeps_structure__addComponent | apply _addComponent_unique]
    | apply (all_unique_call this);
        [apply keeps_structure__removeComponent | apply _removeComponent_unique]
    | apply clone_all_unique
    | apply copy_all_unique
    | apply all_unique_keeps .. ];
    unfold getComponent, getItem, getComponents, getCurrentTask, getData,
      Component_getData, getName, getTasks, getType, getUUID, hasComponent, hasItem,
      isDirty, print, setComponentData, getComponents, setTasks, appendTasks,
      insertTasks, advanceTasks, this_tasks;
    structure.
Qed.

(** X14. No entity ever holds two Components of one type: in a world
    where every entity has at most one Component of each type, whatever a
    program does next with the class ([new] with or without a
    configuration, also when the constructor throws, [new Component], and
    any method call on any entity with any arguments, also when it
    throws), every entity still has at most one of each type. *)
Theorem types_stay_unique (steps : list step) (w : World) :
  all_unique w → all_unique (after_steps steps w).
Proof.
  revert w. unfold after_steps.
  induction steps as [|s steps IH]; intros w Hall; [exact Hall|].
  cbn [foldl]. apply IH. destruct s as [C config|data|this c]; cbn [run_step].
  - apply new_Entity_all_unique, Hall.
  - intros x Hx. apply unique_types_alloc, Hall, Hx.
  - apply invoke_all_unique, Hall.
Qed.

Lemma types_stay_unique_witness :
  all_unique
    (after_steps
       [step_new "Entity" (Some nameless_config);
        step_new_Component position;
        step_call 0 (call_addComponent 2);
        step_call 0 call_clone;
        step_call 0 (call_copy 1);
        step_call 1 (call_removeComponent "position")]
       empty_world).
Proof.
  apply types_stay_unique. intros x [o Ho]. discriminate Ho.
Defined.

(** ** utils/hasItem.js *)

(** X15. [hasItem( target, array, prop )] on an array of Components, for
    a primitive [target] and for [prop] the name of one of the two
    properties of a Component (["_type"], which Entity passes, or
    ["_data"]), returns true exactly when some item of the array has
    [item[ prop ] === target], and changes nothing.  As [===] is never
    true of NaN, it returns false for NaN whatever the array holds. *)
Theorem hasItem_finds (w : World) (target : prim) (array : list loc)
    (prop : Component.key) :
  Forall (λ c, c < length (component_store w)) array →
  hasItem target array prop w
  = (Normal (existsb (λ item, value_is (Component_prop item prop) target)
                     (cells (component_store w) array)), w) ∧
  hasItem NaN array prop w = (Normal false, w).
Proof.
  intros Hv.
  assert (Hmain : ∀ target,
    hasItem target array prop w
    = (Normal (existsb (λ item, value_is (Component_prop item prop) target)
                       (cells (component_store w) array)), w)).
  { clear target. intros target. unfold hasItem.
    induction Hv as [|c cs Hc _ IH]; [reflexivity|].
    apply lookup_lt_is_Some_2 in Hc as [item Hi].
    rewrite (cells_cons _ _ _ _ Hi). cbn [Array_find existsb].
    rewrite bind_assoc. unfold get_component at 1. rewrite bind_eq, Hi.
    destruct (value_is (Component_prop item prop) target); [reflexivity | exact IH]. }
  split; [apply Hmain|].
  rewrite Hmain. f_equal. f_equal. clear Hmain.
  induction (cells (component_store w) array) as [|item items IH]; [reflexivity|].
  cbn [existsb]. rewrite IH, orb_false_r.
  unfold value_is. destruct (Component_prop item prop) as [p| | | | | |]; try reflexivity.
  destruct p; reflexivity.
Qed.

Lemma hasItem_finds_witness :
  hasItem (Str "health") [0; 1] Component.key_type scene = (Normal true, scene) ∧
  hasItem NaN [0; 1] Component.key_type scene = (Normal false, scene).
Proof.
  apply (hasItem_finds scene (Str "health") [0; 1] Component.key_type).
  repeat constructor.
Defined.

(** ** [tasksDirty] *)

Section keeps_tasksDirty.
Context (P : loc → Prop).

Lemma keeps_tasksDirty_same_store {A} (m : Js A) :
  (∀ w, entity_store (m w).2 = entity_store w) → keeps_tasksDirty P m.
Proof. intros H w x _. unfold tasksDirty_at. rewrite H. auto. Qed.

Lemma keeps_tasksDirty_read_only {A} (m : Js A) : read_only m → keeps_tasksDirty P m.
Proof. intros H. apply keeps_tasksDirty_same_store. intros w. rewrite H. reflexivity. Qed.

Lemma keeps_tasksDirty_ret {A} (a : A) : keeps_tasksDirty P (mret a).
Proof. apply keeps_tasksDirty_same_store. reflexivity. Qed.

Lemma keeps_tasksDirty_bind {A B} (m : Js A) (f : A → Js B) :
  keeps_tasksDirty P m → (∀ a, keeps_tasksDirty P (f a)) → keeps_tasksDirty P (m ≫= f).
Proof.
  intros Hm Hf w x Hx Hd. rewrite bind_eq.
  specialize (Hm w x Hx Hd). destruct (m w) as [[a|e] w1]; [|exact Hm].
  apply Hf; assumption.
Qed.

Lemma keeps_tasksDirty_fmap {A B} (g : A → B) (m : Js A) :
  keeps_tasksDirty P m → keeps_tasksDirty P (g <$> m).
Proof.
  intros Hm. apply keeps_tasksDirty_bind; [exact Hm | intros; apply keeps_tasksDirty_ret].
Qed.

Lemma keeps_tasksDirty_throw {A} e : keeps_tasksDirty P (throw e : Js A).
Proof. apply keeps_tasksDirty_same_store. reflexivity. Qed.

Lemma keeps_tasksDirty_get_entity e : keeps_tasksDirty P (get_entity e).
Proof. apply keeps_tasksDirty_read_only, read_only_get_entity. Qed.

Lemma keeps_tasksDirty_get_component c : keeps_tasksDirty P (get_component c).
Proof. apply keeps_tasksDirty_read_only, read_only_get_component. Qed.

Lemma keeps_tasksDirty_Array_find target array prop :
  keeps_tasksDirty P (Array_find target array prop).
Proof. apply keeps_tasksDirty_read_only, read_only_Array_find. Qed.

Lemma keeps_tasksDirty_read_components refs : keeps_tasksDirty P (read_components refs).
Proof. apply keeps_tasksDirty_read_only, read_only_read_components. Qed.

Lemma keeps_tasksDirty_getComponentList this :
  keeps_tasksDirty P (getComponentList this).
Proof. apply keeps_tasksDirty_read_only, read_only_getComponentList. Qed.

Lemma keeps_tasksDirty_put_component c o : keeps_tasksDirty P (put_component c o).
Proof.
  apply keeps_tasksDirty_same_store. intros w. unfold put_component.
  destruct (component_store w !! c); reflexivity.
Qed.

Lemma keeps_tasksDirty_alloc_component o : keeps_tasksDirty P (alloc_component o).
Proof. apply keeps_tasksDirty_same_store. reflexivity. Qed.

Lemma keeps_tasksDirty_UUID : keeps_tasksDirty P UUID.
Proof. apply keeps_tasksDirty_same_store. reflexivity. Qed.

Lemma keeps_tasksDirty_console_warn pieces : keeps_tasksDirty P (console_warn pieces).
Proof. apply keeps_tasksDirty_same_store. reflexivity. Qed.

Lemma keeps_tasksDirty_console_info m : keeps_tasksDirty P (console_info m).
Proof. apply keeps_tasksDirty_same_store. reflexivity. Qed.

Lemma keeps_tasksDirty_alloc_entity o : keeps_tasksDirty P (alloc_entity o).
Proof.
  intros w x _. unfold tasksDirty_at, alloc_entity. js_simpl.
  intros Hd. rewrite lookup_app_l; [exact Hd|].
  apply lookup_lt_is_Some. destruct (entity_store w !! x); [eauto | discriminate].
Qed.

(** An assignment that leaves a true [tasksDirty] true, or is made to an
    entity outside [P]. *)
Lemma keeps_tasksDirty_assign e f :
  (P e → ∀ o, Entity.tasksDirty o = Bool true → Entity.tasksDirty (f o) = Bool true) →
  keeps_tasksDirty P (assign e f).
Proof.
  intros Hf w x Hx. unfold tasksDirty_at, assign.
  destruct (entity_store w !! e) as [o|] eqn:Ho; [|auto].
  js_simpl. rewrite list_lookup_alter. case_decide as Hex; [|auto].
  subst x. rewrite Ho. cbn. intros [= Hd]. f_equal. apply Hf; assumption.
Qed.

Lemma keeps_tasksDirty_forEach {A} (array : list A) (f : A → Js unit) :
  (∀ a, keeps_tasksDirty P (f a)) → keeps_tasksDirty P (forEach array f).
Proof.
  intros Hf. induction array as [|a array IH]; cbn [forEach].
  - apply keeps_tasksDirty_ret.
  - apply keeps_tasksDirty_bind; [apply Hf | intros _; exact IH].
Qed.

End keeps_tasksDirty.

Create HintDb keeps_tasksDirty.

#[local] Hint Resolve keeps_tasksDirty_ret keeps_tasksDirty_throw
  keeps_tasksDirty_get_entity keeps_tasksDirty_get_component
  keeps_tasksDirty_put_component keeps_tasksDirty_alloc_component
  keeps_tasksDirty_UUID keeps_tasksDirty_console_warn keeps_tasksDirty_console_info
  keeps_tasksDirty_alloc_entity keeps_tasksDirty_Array_find
  keeps_tasksDirty_read_components keeps_tasksDirty_getComponentList
  : keeps_tasksDirty.

Ltac keeps_tasks :=
  repeat first
    [ solve [ auto with keeps_tasksDirty ]
    | apply keeps_tasksDirty_bind; [|intros ?]
    | apply keeps_tasksDirty_fmap
    | apply keeps_tasksDirty_forEach; intros ?
    | apply keeps_tasksDirty_assign; intros ? ? ?;
        first [ reflexivity | assumption | exfalso; auto ]
    | match goal with
      | |- keeps_tasksDirty _ (match ?x with _ => _ end) => destruct x
      end ].

Lemma keeps_tasksDirty__addComponent P this component :
  keeps_tasksDirty P (_addComponent this component).
Proof.
  unfold _addComponent, Component_getType, hasComponent, hasItem, getUUID,
    push_component, getComponents.
  keeps_tasks.
Qed.

(** The constructor ends its configured branch with
    [this.tasksDirty = false]: it keeps the flag of every entity but the
    one it is building. *)
Lemma keeps_tasksDirty_constructor P this config :
  ¬ P this → keeps_tasksDirty P (constructor this config).
Proof.
  intros Hp. unfold constructor, new_Component.
  pose proof keeps_tasksDirty__addComponent.
  destruct config as [config|].
  - destruct (truthy (Config.uuid config)), (Config.components config); keeps_tasks.
  - keeps_tasks.
Qed.

Lemma keeps_tasksDirty_new_Entity P C config : keeps_tasksDirty P (new_Entity C config).
Proof.
  intros w x Hx Hd. unfold new_Entity. erewrite bind_normal by reflexivity.
  apply (keeps_tasksDirty_constructor (λ y, y ≠ length (entity_store w))).
  - intros Hne. apply Hne. reflexivity.
  - intros ->. unfold tasksDirty_at in Hd.
    rewrite (lookup_ge_None_2 (entity_store w) (length (entity_store w))) in Hd by lia.
    discriminate.
  - apply (keeps_tasksDirty_alloc_entity P (Entity.blank C) w x Hx Hd).
Qed.

Lemma keeps_tasksDirty_copy P this source : keeps_tasksDirty P (copy this source).
Proof.
  unfold copy, getType, getName, getComponents, push_component, Component_clone.
  keeps_tasks.
Qed.

Lemma keeps_tasksDirty_setDirty P this dirty : keeps_tasksDirty P (setDirty this dirty).
Proof. unfold setDirty, isDirty. keeps_tasks. Qed.

Lemma keeps_tasksDirty_setComponentData_loop P this components type data :
  keeps_tasksDirty P (setComponentData_loop this components type data).
Proof.
  pose proof (keeps_tasksDirty_setDirty P this None).
  induction components as [|c cs IH]; cbn [setComponentData_loop]; [keeps_tasks|].
  unfold Component_getType, Component_apply.
  apply keeps_tasksDirty_bind; [keeps_tasks | intros t].
  destruct (String.eqb t type); [keeps_tasks | exact IH].
Qed.

Lemma keeps_tasksDirty_invoke P this c : keeps_tasksDirty P (invoke this c).
Proof.
  pose proof keeps_tasksDirty__addComponent. pose proof keeps_tasksDirty_copy.
  pose proof keeps_tasksDirty_new_Entity.
  pose proof keeps_tasksDirty_setComponentData_loop.
  pose proof keeps_tasksDirty_setDirty.
  destruct c; cbn [invoke];
    unfold _removeComponent, clone, getComponent, getItem, getComponents,
      getCurrentTask, getData, Component_getData, getName, getTasks, getType, getUUID,
      hasComponent, hasItem, isDirty, print, setComponentData, setTasks, appendTasks,
      insertTasks, advanceTasks, this_tasks;
    keeps_tasks.
Qed.

(** X16. No method sets [tasksDirty] back: once it is true for an entity
    ([setTasks], [insertTasks] and [advanceTasks] set it), it is true after
    whatever a program does next with the class, [setDirty( false )]
    included. *)
Theorem tasksDirty_never_cleared (steps : list step) (w : World) (x : loc) :
  tasksDirty_at w x → tasksDirty_at (after_steps steps w) x.
Proof.
  revert w. unfold after_steps.
  induction steps as [|s steps IH]; intros w Hd; [exact Hd|].
  cbn [foldl]. apply IH. destruct s as [C config|data|this c]; cbn [run_step].
  - exact (keeps_tasksDirty_new_Entity (λ _, True) C config w x I Hd).
  - exact Hd.
  - exact (keeps_tasksDirty_invoke (λ _, True) this c w x I Hd).
Qed.

Lemma tasksDirty_never_cleared_witness :
  tasksDirty_at
    (after_steps
       [step_call 0 (call_setDirty (Some (Bool false)));
        step_call 0 (call_setTasks []);
        step_new "Entity" (Some tank_config);
        step_call 0 (call_copy 1)]
       (advanceTasks 0 scene).2) 0.
Proof.
  apply tasksDirty_never_cleared. reflexivity.
Defined.

(** * The dirty flag *)

Lemma hasComponent_true w this o T :
  entity_store w !! this = Some o →
  Forall (λ c, c < length (component_store w)) (Entity._components o) →
  hasComponent this T w = (Normal true, w) →
  ∃ c item, find_type w T (Entity._components o) = Some c ∧
            c ∈ Entity._components o ∧ component_store w !! c = Some item.
Proof.
  intros Ho Hv. rewrite (hasComponent_run _ _ _ _ Ho Hv).
  destruct (find_type w T (Entity._components o)) as [c|] eqn:Hf.
  - intros _. pose proof (find_type_Some _ _ _ _ Hf) as [Hin _].
    rewrite Forall_forall in Hv.
    destruct (lookup_lt_is_Some_2 _ _ (Hv c Hin)) as [item Hi]. eauto.
  - rewrite bool_decide_eq_false_2 by (intros [? ?]; discriminate). discriminate.
Qed.

(** A mutating call that has something to do returns, and not null. *)
Lemma applicable_returns this c w :
  is_mutation c = true → valid w this → applicable this c w →
  ∃ v w', invoke this c w = (Normal v, w') ∧ v ≠ Prim Null.
Proof.
  intros Hc Hv Ha. apply valid_lookup in Hv as (o & Ho & Hv).
  destruct c; try discriminate; cbn [invoke applicable] in *.
  - destruct Ha as (type & Ht & Hh).
    unfold Component_getType in Ht. apply bind_inv in Ht as (item & w0 & Hi & Ht).
    apply get_component_inv in Hi as [Hi ->]. injection Ht as Ht.
    pose proof (hasComponent_false _ _ _ _ Ho Hv Hh) as Hf.
    pose proof (_addComponent_run _ _ _ _ _ Ho Hv Hi) as Hrun.
    rewrite Ht, Hf in Hrun. eexists _, _. split; [exact Hrun | discriminate].
  - destruct (hasComponent_true _ _ _ _ Ho Hv Ha) as (c & item & Hf & Hin & _).
    pose proof (_removeComponent_run _ _ _ type Ho Hv) as Hrun.
    rewrite Hf in Hrun. cbn [indexOf] in Hrun.
    destruct (indexOf_from_elem 0 _ _ Hin) as [j Hj]. rewrite Hj in Hrun.
    eexists _, _. split; [exact Hrun | discriminate].
  - destruct (valid_lookup _ _ Ha) as (a & Hsrc & Hva).
    eexists _, _. split;
      [apply (copy_run w this source o a Ho Hsrc);
       destruct (decide (this = source)); [constructor | exact Hva]
      | discriminate].
  - destruct (hasComponent_true _ _ _ _ Ho Hv Ha) as (c & item & Hf & _ & Hi).
    eexists _, _. split;
      [unfold setComponentData, getComponents; repeat js_step;
       apply (setComponentData_loop_run _ _ _ _ _ _ _ _ Ho Hv Hf Hi)
      | discriminate].
  - rewrite (setTasks_run _ _ _ _ Ho). eexists _, _. split; [reflexivity | discriminate].
  - unfold appendTasks, this_tasks. js_step.
    erewrite bind_normal by (eapply setDirty_run; js_lookup).
    rewrite ret_eq. eexists _, _. split; [reflexivity | discriminate].
  - rewrite (insertTasks_run _ _ _ _ Ho). eexists _, _. split; [reflexivity | discriminate].
  - rewrite (advanceTasks_run _ _ _ Ho). eexists _, _. split; [reflexivity | discriminate].
Qed.

(** [setDirty( v )] stores [v], or true for a missing or undefined [v],
    in the flag of its entity and of no other, and returns it. *)
Lemma call_setDirty_run this dirty w :
  is_Some (entity_store w !! this) →
  ∃ w',
    invoke this (call_setDirty dirty) w
      = (Normal (Prim (or_default (Bool true) dirty)), w') ∧
    isDirty this w' = (Normal (or_default (Bool true) dirty), w') ∧
    Entity._dirty <$> entity_store w' !! this = Some (or_default (Bool true) dirty) ∧
    (∀ x, x ≠ this → entity_store w' !! x = entity_store w !! x).
Proof.
  intros [o Ho]. cbn [invoke]. unfold fmap, Js_fmap.
  erewrite bind_normal by exact (setDirty_run _ _ _ _ Ho). rewrite ret_eq.
  eexists. split; [reflexivity|].
  assert (Hl : entity_store
                 (with_entities
                    (alter (Entity.set_dirty (or_default (Bool true) dirty)) this
                       (entity_store w)) w) !! this
               = Some (Entity.set_dirty (or_default (Bool true) dirty) o)).
  { js_simpl. rewrite list_lookup_alter_eq, Ho. reflexivity. }
  split; [|split].
  - unfold isDirty. erewrite bind_normal by (apply get_entity_run, Hl). reflexivity.
  - rewrite Hl. reflexivity.
  - intros x Hx. js_simpl. apply list_lookup_alter_ne. congruence.
Qed.

(** A call after which a dirty entity is not dirty is a [setDirty] on that
    entity, with an argument that is neither true nor undefined. *)
Lemma cleared_by_setDirty this c w x :
  dirty_at w x → ¬ dirty_at (invoke this c w).2 x →
  x = this ∧ ∃ v, c = call_setDirty (Some v) ∧ v ≠ Bool true ∧ v ≠ Undefined.
Proof.
  intros Hd Hn.
  assert (Hk : (∀ d, c = call_setDirty d → or_default (Bool true) d = Bool true) → False).
  { intros Hc. apply Hn. exact (keeps_dirty_invoke this c Hc w x I Hd). }
  destruct c; try (exfalso; apply Hk; intros d Hc; discriminate Hc).
  split.
  - destruct (decide (x = this)) as [Hx|Hx]; [exact Hx|].
    exfalso. apply Hn. cbn [invoke].
    apply (keeps_dirty_fmap (λ y, y ≠ this)); [|exact Hx | exact Hd].
    apply keeps_dirty_setDirty. intros Hp. destruct (Hp eq_refl).
  - destruct dirty as [v|]; [|exfalso; apply Hk; intros d [= <-]; reflexivity].
    exists v. split; [reflexivity|].
    split; intros ->; apply Hk; intros d [= <-]; reflexivity.
Qed.

(** C7. [new Entity()] returns, and an Entity that [new Entity( config )]
    returns is not dirty.  Each of [_addComponent], [_removeComponent],
    [copy], [setComponentData], [setTasks], [appendTasks], [insertTasks]
    and [advanceTasks] that does not return null leaves the entity dirty,
    and each of them that has something to do (see [applicable]) returns,
    not null, and leaves the entity dirty.  [setDirty( v )] stores [v]
    and returns it, on its entity only, so that after [setDirty( false )]
    the entity is not dirty.  Nothing else clears the flag: if an entity
    is dirty before a call and is not after it, the call is [setDirty]
    on that entity with an argument that is neither true nor undefined;
    and if the flag is false after it, the call is [setDirty( false )]
    on that entity. *)
Theorem dirty_flag_rule :
  (∀ C w, ∃ e w', new_Entity C None w = (Normal e, w')) ∧
  (∀ C config w e w',
     new_Entity C config w = (Normal e, w') →
     Entity._dirty <$> entity_store w' !! e = Some (Bool false)) ∧
  (∀ this c w v w',
     is_mutation c = true →
     invoke this c w = (Normal v, w') → v ≠ Prim Null →
     dirty_at w' this) ∧
  (∀ this c w,
     is_mutation c = true → valid w this → applicable this c w →
     ∃ v w', invoke this c w = (Normal v, w') ∧ v ≠ Prim Null ∧ dirty_at w' this) ∧
  (∀ this dirty w,
     is_Some (entity_store w !! this) →
     ∃ w',
       invoke this (call_setDirty dirty) w
         = (Normal (Prim (or_default (Bool true) dirty)), w') ∧
       isDirty this w' = (Normal (or_default (Bool true) dirty), w') ∧
       Entity._dirty <$> entity_store w' !! this = Some (or_default (Bool true) dirty) ∧
       (∀ x, x ≠ this → entity_store w' !! x = entity_store w !! x)) ∧
  (∀ this w,
     is_Some (entity_store w !! this) →
     ¬ dirty_at (invoke this (call_setDirty (Some (Bool false))) w).2 this) ∧
  (∀ this c w x,
     dirty_at w x → ¬ dirty_at (invoke this c w).2 x →
     x = this ∧ ∃ v, c = call_setDirty (Some v) ∧ v ≠ Bool true ∧ v ≠ Undefined) ∧
  (∀ this c w x,
     dirty_at w x →
     Entity._dirty <$> entity_store (invoke this c w).2 !! x = Some (Bool false) →
     x = this ∧ c = call_setDirty (Some (Bool false))).
Proof.
  split; [|split; [|split; [|split; [|split; [|split; [|split]]]]]].
  - intros C w. rewrite new_Entity_fresh. eauto.
  - intros C config w e w' H. apply (new_Entity_unique _ _ _ _ _ H).
  - intros this c w v w' Hc H Hv. exact (marks_dirty_invoke this c Hc w v w' H Hv).
  - intros this c w Hc Hv Ha.
    destruct (applicable_returns this c w Hc Hv Ha) as (v & w' & Hrun & Hnull).
    exists v, w'. split; [exact Hrun|]. split; [exact Hnull|].
    exact (marks_dirty_invoke this c Hc w v w' Hrun Hnull).
  - exact call_setDirty_run.
  - intros this w He.
    destruct (call_setDirty_run this (Some (Bool false)) w He) as (w' & Hrun & _ & Hf & _).
    rewrite Hrun. cbn [snd]. unfold dirty_at. rewrite Hf. discriminate.
  - exact cleared_by_setDirty.
  - intros this c w x Hd Hf.
    destruct (cleared_by_setDirty this c w x Hd) as (-> & v & -> & Hv1 & Hv2).
    { unfold dirty_at. rewrite Hf. discriminate. }
    split; [reflexivity|].
    assert (He : is_Some (entity_store w !! this)).
    { unfold dirty_at in Hd. destruct (entity_store w !! this); [eauto | discriminate]. }
    destruct (call_setDirty_run this (Some v) w He) as (w' & Hrun & _ & Hv & _).
    rewrite Hrun in Hf. cbn [snd] in Hf. rewrite Hv in Hf.
    destruct v; try discriminate. injection Hf as ->. reflexivity.
Qed.

Lemma dirty_flag_rule_witness :
  Entity._dirty <$> entity_store scene !! 0 = Some (Bool false) ∧
  (∃ v w', invoke 0 (call_removeComponent "health") scene = (Normal v, w') ∧
           v ≠ Prim Null ∧ dirty_at w' 0) ∧
  dirty_at (invoke 1 (call_setTasks [fire_task]) two_entities).2 1 ∧
  ¬ dirty_at
      (invoke 1 (call_setDirty (Some (Bool false)))
         (invoke 1 (call_setTasks [fire_task]) two_entities).2).2 1 ∧
  dirty_at
    (invoke 0 (call_setDirty (Some (Bool false)))
       (invoke 1 (call_setTasks [fire_task]) two_entities).2).2 1 ∧
  Entity._dirty
    <$> entity_store
          (invoke 1 (call_setDirty (Some (Num 0)))
             (invoke 1 (call_setTasks [fire_task]) two_entities).2).2 !! 1
  ≠ Some (Bool false).
Proof.
  destruct dirty_flag_rule
    as (_ & Hnew & Hmut & Happ & _ & Hclears & Honly & Hfalse).
  split; [|split; [|split; [|split; [|split]]]].
  - exact (Hnew "Entity" (Some tank_config) empty_world 0 scene eq_refl).
  - apply (Happ 0 (call_removeComponent "health") scene eq_refl).
    + split; [eexists; reflexivity | repeat constructor].
    + reflexivity.
  - apply (Hmut 1 (call_setTasks [fire_task]) two_entities (Prim Undefined)
             (invoke 1 (call_setTasks [fire_task]) two_entities).2 eq_refl eq_refl).
    discriminate.
  - apply Hclears. eexists. reflexivity.
  - set (w1 := (invoke 1 (call_setTasks [fire_task]) two_entities).2).
    destruct (decide (Entity._dirty
                        <$> entity_store
                              (invoke 0 (call_setDirty (Some (Bool false))) w1).2 !! 1
                      = Some (Bool true))) as [Hd|Hd]; [exact Hd | exfalso].
    destruct (Honly 0 (call_setDirty (Some (Bool false))) w1 1 eq_refl Hd) as [Hx _].
    discriminate Hx.
  - intros H.
    destruct (Hfalse 1 (call_setDirty (Some (Num 0)))
                (invoke 1 (call_setTasks [fire_task]) two_entities).2 1 eq_refl H)
      as [_ Hc].
    discriminate Hc.
Defined.
